(** * Tenant matching engine (matching_engine.py): model and properties

    The engine scores every ordered pair of tenant profiles attribute by
    attribute, aggregates the scores into a weighted percentage, ranks the
    candidates of every tenant and renders a short explanation of the three
    attributes that contributed most.

    Python floats are IEEE 754 binary64 numbers; they are modelled with the
    executable specification [spec_float] of the Standard Library
    (precision 53, emax 1024, round to nearest even).  Exceptions are
    modelled with a small error monad. *)

From Stdlib Require Import ZArith QArith Qabs Qminmax String Ascii List Lia.
From Stdlib Require Import Floats.SpecFloat.
From stdpp Require Import base option gmap strings list sorting pretty.

Local Open Scope Z_scope.

(** ** Binary64 floats *)

Module F.

Abbreviation float := spec_float.

Definition prec : Z := 53.
Definition emax : Z := 1024.

Definition add : float -> float -> float := SFadd prec emax.
Definition sub : float -> float -> float := SFsub prec emax.
Definition mul : float -> float -> float := SFmul prec emax.
Definition div : float -> float -> float := SFdiv prec emax.
Definition abs : float -> float := SFabs.
Definition ltb : float -> float -> bool := SFltb.
Definition leb : float -> float -> bool := SFleb.
Definition eqb : float -> float -> bool := SFeqb.

(** [float(z)] for a Python int: the nearest binary64 number. *)
Definition of_int (z : Z) : float := binary_normalize prec emax z 0 false.

(** A decimal literal [n/d] (such as [1.3 = 13/10]) denotes the binary64
    number nearest to the quotient; IEEE division of the two exactly
    representable integers rounds correctly to that number. *)
Definition lit (n d : Z) : float := div (of_int n) (of_int d).

Definition zero : float := S754_zero false.
Definition one : float := of_int 1.
Definition hundred : float := of_int 100.

Definition is_zero (x : float) : bool :=
  match x with S754_zero _ => true | _ => false end.

Definition is_nan (x : float) : bool :=
  match x with S754_nan => true | _ => false end.

Definition is_finite (x : float) : bool :=
  match x with S754_zero _ | S754_finite _ _ _ => true | _ => false end.

(** [|x| * 100] rounded to the nearest integer, ties to even, computed on the
    exact value [m * 2^e] of a finite float. *)
Definition scaled_half_even (m : positive) (e : Z) : Z :=
  let n := Z.pos m * 100 in
  if 0 <=? e then n * 2 ^ e
  else
    let d := 2 ^ (- e) in
    let q := n / d in
    let r := n mod d in
    match 2 * r ?= d with
    | Lt => q
    | Gt => q + 1
    | Eq => if Z.even q then q else q + 1
    end.

(** [round(x, 2)]: the decimal with two fractional digits nearest to [x]
    (ties to even on the exact binary value), converted back to the nearest
    binary64 number.  The quotient of the integer [n] by [100] is rounded
    once, by the division on integer mantissas. *)
Definition round2 (x : float) : float :=
  match x with
  | S754_finite s m e =>
      match scaled_half_even m e with
      | Z.pos n => div (S754_finite s n 0) (S754_finite false 100 0)
      | _ => S754_zero s
      end
  | _ => x
  end.

(** [format(x, ".2f")]. *)
Definition two_digits (k : Z) : string :=
  if k <? 10 then "0" +:+ pretty k else pretty k.

Definition sign_prefix (s : bool) : string :=
  if s then "-" else EmptyString.

Definition fmt2 (x : float) : string :=
  match x with
  | S754_nan => "nan"
  | S754_infinity s => sign_prefix s +:+ "inf"
  | S754_zero s => sign_prefix s +:+ "0.00"
  | S754_finite s m e =>
      let n := scaled_half_even m e in
      sign_prefix s +:+ pretty (n / 100) +:+ "." +:+ two_digits (n mod 100)
  end.

(** The builtin [sum] over floats, started from the int [0]: a left-to-right
    accumulation (CPython up to 3.11). *)
Definition py_sum (xs : list float) : float := fold_left add xs zero.

(** CPython 3.12 and later accumulate floats with Neumaier's compensated
    summation; [c] collects the rounding errors and is added at the end when
    it is a finite non-zero number. *)
Definition neumaier_step (st : float * float) (x : float) : float * float :=
  let '(f_result, c) := st in
  let t := add f_result x in
  let c' :=
    if leb (abs x) (abs f_result)
    then add c (add (sub f_result t) x)
    else add c (add (sub x t) f_result) in
  (t, c').

Definition py_sum_compensated (xs : list float) : float :=
  let '(f_result, c) := fold_left neumaier_step xs (zero, zero) in
  match c with
  | S754_finite _ _ _ => add f_result c
  | _ => f_result
  end.

(** The rational number a finite float stands for. *)
Definition to_Q (x : float) : option Q :=
  match x with
  | S754_zero _ => Some 0%Q
  | S754_finite s m e =>
      let n := if s then Z.neg m else Z.pos m in
      Some (if 0 <=? e then inject_Z (n * 2 ^ e) else Qmake n (Z.to_pos (2 ^ (- e))))
  | _ => None
  end.

(** [x] is finite and stands for the rational [q]. *)
Definition exactly (x : float) (q : Q) : Prop :=
  match to_Q x with
  | Some q' => Qeq q' q
  | None => False
  end.

(** The place of a float in the order of [<]: the class (infinities, signed
    finite numbers, zeros), then exponent and mantissa. *)
Definition rank (x : float) : Z * Z * Z :=
  match x with
  | S754_infinity true => (-2, 0, 0)
  | S754_finite true m e => (-1, - e, Z.neg m)
  | S754_zero _ => (0, 0, 0)
  | S754_finite false m e => (1, e, Z.pos m)
  | S754_infinity false => (2, 0, 0)
  | S754_nan => (3, 0, 0)
  end.

Definition rank_lt (a b : Z * Z * Z) : Prop :=
  a.1.1 < b.1.1 \/
  (a.1.1 = b.1.1 /\ (a.1.2 < b.1.2 \/ (a.1.2 = b.1.2 /\ a.2 < b.2))).

(** The sign bit ([math.copysign(1.0, x) < 0]). *)
Definition sign_bit (x : float) : bool :=
  match x with
  | S754_zero s | S754_infinity s | S754_finite s _ _ => s
  | S754_nan => false
  end.

(** A number, with the sign bit clear: [+0.0], a positive finite number or
    [+inf]. *)
Definition not_negative (x : float) : bool :=
  negb (is_nan x) && negb (sign_bit x).

Definition positive_finite (x : float) : bool :=
  match x with S754_finite false _ _ => true | _ => false end.

(** Structural equality, as a boolean. *)
Definition same (x y : float) : bool :=
  match x, y with
  | S754_zero s, S754_zero t => Bool.eqb s t
  | S754_infinity s, S754_infinity t => Bool.eqb s t
  | S754_nan, S754_nan => true
  | S754_finite s m e, S754_finite t n f =>
      Bool.eqb s t && Pos.eqb m n && Z.eqb e f
  | _, _ => false
  end.

End F.

Export F(float).

(** ** Exceptions *)

Inductive exn : Type :=
  | KeyError (key : string)
  | IndexError
  | ZeroDivisionError
  | OverflowError.

Inductive result (A : Type) : Type :=
  | Ok (a : A)
  | Raise (e : exn).

Arguments Ok {A} a.
Arguments Raise {A} e.

#[global] Instance result_ret : MRet result := fun A a => Ok a.
#[global] Instance result_bind : MBind result := fun A B k m =>
  match m with
  | Ok a => k a
  | Raise e => Raise e
  end.

(** A [for] loop over [xs] whose body updates the loop state [s] and may
    raise; an exception leaves the loop at once. *)
Fixpoint for_each {A S : Type} (body : S -> A -> result S) (xs : list A) (s : S)
  : result S :=
  match xs with
  | [] => Ok s
  | x :: xs' => s' ← body s x; for_each body xs' s'
  end.

(** [x / y] on floats. *)
Definition truediv (x y : float) : result float :=
  if F.is_zero y then Raise ZeroDivisionError else Ok (F.div x y).

(** ** Python builtins used by the engine *)

(** [min(a, b)] and [max(a, b)] keep the first argument unless the second
    compares strictly smaller (resp. greater). *)
Definition py_min (a b : float) : float := if F.ltb b a then b else a.
Definition py_max (a b : float) : float := if F.ltb a b then b else a.

(** [enumerate(xs, start)]. *)
Fixpoint enumerate {A : Type} (start : nat) (xs : list A) : list (nat * A) :=
  match xs with
  | [] => []
  | x :: xs' => (start, x) :: enumerate (S start) xs'
  end.

(** [xs[:stop]]: a negative [stop] counts from the end of the list. *)
Definition slice_to {A : Type} (xs : list A) (stop : Z) : list A :=
  if 0 <=? stop then take (Z.to_nat stop) xs
  else take (length xs - Z.to_nat (- stop))%nat xs.

(** [xs.sort(key=key, reverse=True)]: the stable sort in descending key
    order; elements whose keys do not compare strictly keep their relative
    order.  On keys without NaN this is the unique result of any stable sort,
    so the list is built by insertion. *)
Section Sort.
Context {A : Type} (key : A -> float).

Fixpoint insert_desc (x : A) (l : list A) : list A :=
  match l with
  | [] => [x]
  | y :: l' => if F.ltb (key x) (key y) then y :: insert_desc x l' else x :: l
  end.

Definition sort_desc (l : list A) : list A := foldr insert_desc [] l.

(** [x] may stand before [y]: its key is not the smaller one. *)
Definition not_below (x y : A) : Prop := F.ltb (key x) (key y) = false.

End Sort.

(** [s.replace(old, new)] for one-character [old] and [new]. *)
Fixpoint replace_char (old new : ascii) (s : string) : string :=
  match s with
  | EmptyString => EmptyString
  | String c s' =>
      String (if Ascii.eqb c old then new else c) (replace_char old new s')
  end.

Definition is_upper (c : ascii) : bool :=
  let n := nat_of_ascii c in ((65 <=? n) && (n <=? 90))%nat.
Definition is_lower (c : ascii) : bool :=
  let n := nat_of_ascii c in ((97 <=? n) && (n <=? 122))%nat.
Definition upper (c : ascii) : ascii :=
  if is_lower c then ascii_of_nat (nat_of_ascii c - 32) else c.
Definition lower (c : ascii) : ascii :=
  if is_upper c then ascii_of_nat (nat_of_ascii c + 32) else c.

Fixpoint lower_all (s : string) : string :=
  match s with
  | EmptyString => EmptyString
  | String c s' => String (lower c) (lower_all s')
  end.

(** [s.capitalize()] on ASCII text: the first character in upper case, the
    others in lower case. *)
Definition capitalize (s : string) : string :=
  match s with
  | EmptyString => EmptyString
  | String c s' => String (upper c) (lower_all s')
  end.

(** The text is ASCII: every character is below 128.  On such text
    [str.replace] and [str.capitalize] work character by character, as
    modelled above; outside ASCII [str.capitalize] can change the number of
    characters, and the model does not apply. *)
Definition is_ascii (c : ascii) : bool := (nat_of_ascii c <? 128)%nat.

Definition ascii_text (s : string) : bool :=
  forallb is_ascii (list_ascii_of_string s).

(** [sep.join(parts)]. *)
Definition join (sep : string) (parts : list string) : string :=
  String.concat sep parts.

(** ** Configuration *)

(** The module-level constants of the engine.  They are gathered in one
    record so that the degenerate scale and short attribute lists, which the
    functions guard against, can be stated. *)
Record config : Type := {
  FEATURES : list string;
  WEIGHTS : gmap string float;
  SCORING_MODE : gmap string string;
  SCALE_MIN : Z;
  SCALE_MAX : Z
}.

Definition TOP_N : Z := 5.

Definition default_config : config := {|
  FEATURES := [
    "cleanliness_level";
    "noise_tolerance";
    "sleep_schedule";
    "routine_structure";
    "WFH_frequency";
    "sociability_level";
    "guest_tolerance";
    "privacy_need";
    "conflict_style";
    "shared_spaces_usage"
  ];
  WEIGHTS := list_to_map [
    ("cleanliness_level", F.lit 13 10);
    ("noise_tolerance", F.lit 13 10);
    ("sleep_schedule", F.lit 12 10);
    ("routine_structure", F.lit 10 10);
    ("WFH_frequency", F.lit 8 10);
    ("sociability_level", F.lit 10 10);
    ("guest_tolerance", F.lit 10 10);
    ("privacy_need", F.lit 11 10);
    ("conflict_style", F.lit 9 10);
    ("shared_spaces_usage", F.lit 9 10)
  ];
  SCORING_MODE := list_to_map [
    ("cleanliness_level", "similarity");
    ("noise_tolerance", "similarity");
    ("sleep_schedule", "similarity");
    ("routine_structure", "similarity");
    ("WFH_frequency", "similarity");
    ("sociability_level", "complementarity");
    ("guest_tolerance", "similarity");
    ("privacy_need", "similarity");
    ("conflict_style", "similarity");
    ("shared_spaces_usage", "complementarity")
  ];
  SCALE_MIN := 1;
  SCALE_MAX := 5
|}.

(** ** Profiles and match rows *)

(** A numeric cell of the profile table: an integer column holds ints (of
    any size when the column has the dtype [object]), a float column binary64
    values. *)
Inductive cell : Type :=
  | CInt (z : Z)
  | CFloat (x : float).

(** The ints that [float] refuses: those that round to a magnitude beyond
    the largest binary64 number [2^1024 - 2^971], that is, from the midpoint
    [2^1024 - 2^970] on. *)
Definition int_overflows (z : Z) : bool := 2 ^ 1024 - 2 ^ 970 <=? Z.abs z.

(** [float(v)]: a float is returned as it is, an int is rounded to the
    nearest binary64 number, and an int too large for that raises
    [OverflowError]. *)
Definition to_float (v : cell) : result float :=
  match v with
  | CInt z => if int_overflows z then Raise OverflowError else Ok (F.of_int z)
  | CFloat x => Ok x
  end.

(** One record of [profiles.to_dict(orient="records")]: the two structural
    columns and the attribute columns, keyed by name.  The table is one that
    has the columns [user_id] and [tenant_label], as section 6 of the
    specification requires of the caller; on a frame without them
    [a["user_id"]] or [a["tenant_label"]] raises [KeyError], a case outside
    this model. *)
Record profile : Type := {
  user_id : Z;
  tenant_label : string;
  attrs : gmap string cell
}.

(** [a[f]] *)
Definition get_attr (a : profile) (f : string) : result cell :=
  match attrs a !! f with
  | Some v => Ok v
  | None => Raise (KeyError f)
  end.

(** The tuple [(f, sc, w, mode)] appended to [per_feature_details]. *)
Definition detail : Type := string * float * float * string.

(** The tuple [(j, compat, per_feature_details)] appended to [candidates]. *)
Definition candidate : Type := nat * float * list detail.

(** One output row.  The column [top_driver_values] prints the raw cells of
    the three drivers; it is not modelled. *)
Record match_row : Type := {
  row_user_id : Z;
  row_tenant_label : string;
  match_rank : nat;
  match_user_id : Z;
  match_tenant_label : string;
  compatibility_score : float;
  top_drivers : string;
  explanation_short : string;
  explanation_long : string
}.

(** ** Scoring *)

Definition clamp01 (x : float) : float :=
  py_max F.zero (py_min F.one x).

Section Engine.
Context (cfg : config).

Definition similarity_score (a b : float) : result float :=
  let max_dist := F.of_int (SCALE_MAX cfg - SCALE_MIN cfg) in
  if F.leb max_dist (F.of_int 0) then Ok F.one
  else
    let dist := F.abs (F.sub a b) in
    q ← truediv dist max_dist;
    Ok (clamp01 (F.sub F.one q)).

Definition complementarity_score (a b : float) : result float :=
  let target_sum := F.of_int (SCALE_MIN cfg + SCALE_MAX cfg) in
  let max_dev := F.of_int (SCALE_MAX cfg - SCALE_MIN cfg) in
  if F.leb max_dev (F.of_int 0) then Ok F.one
  else
    let s := F.add a b in
    let dev := F.abs (F.sub s target_sum) in
    q ← truediv dev max_dev;
    Ok (clamp01 (F.sub F.one q)).

Definition feature_score (feature : string) (a b : float)
  : result (float * string) :=
  let mode := default "similarity" (SCORING_MODE cfg !! feature) in
  if decide (mode = "complementarity")
  then sc ← complementarity_score a b; Ok (sc, "complementarity")
  else sc ← similarity_score a b; Ok (sc, "similarity").

(** ** Matching and explanations *)

Definition prettify_feature_name (f : string) : string :=
  capitalize (replace_char "_" " " f).

(** [weights.get(f, 1.0)] *)
Definition weight_of (f : string) : float :=
  default F.one (WEIGHTS cfg !! f).

Definition total_weight : float :=
  F.py_sum (map weight_of (FEATURES cfg)).

(** Body of the loop over [features] (lines 180-186); the loop state is
    [(weighted_sum, per_feature_details)]. *)
Definition feature_step (a b : profile) (st : float * list detail) (f : string)
  : result (float * list detail) :=
  let '(weighted_sum, per_feature_details) := st in
  av ← get_attr a f ≫= to_float;
  bv ← get_attr b f ≫= to_float;
  '(sc, mode) ← feature_score f av bv;
  let w := weight_of f in
  Ok (F.add weighted_sum (F.mul w sc), per_feature_details ++ [(f, sc, w, mode)]).

(** The sort key [x[1] * x[2]] of the drivers. *)
Definition contribution (x : detail) : float :=
  let '(_, sc, w, _) := x in F.mul sc w.

(** Lines 177-191 for one ordered pair [(a, b)]: the loop over the
    attributes, the percentage and the drivers sorted by contribution. *)
Definition score_pair (a b : profile) : result (float * list detail) :=
  '(weighted_sum, per_feature_details) ←
    for_each (feature_step a b) (FEATURES cfg) (F.zero, []);
  q ← truediv weighted_sum total_weight;
  let compat := F.mul q F.hundred in
  Ok (compat, sort_desc contribution per_feature_details).

(** Body of the loop over the candidates [b] (lines 173-192); the loop
    state is [candidates]. *)
Definition candidate_step (a : profile) (candidates : list candidate)
  (jb : nat * profile) : result (list candidate) :=
  let '(j, b) := jb in
  if decide (user_id a = user_id b) then Ok candidates
  else
    '(compat, per_feature_details) ← score_pair a b;
    Ok (candidates ++ [(j, compat, per_feature_details)]).

(** [f"{f}(mode={mode}, score={sc:.2f}, w={w:.2f})"] *)
Definition driver_part (x : detail) : string :=
  let '(f, sc, w, mode) := x in
  f +:+ "(mode=" +:+ mode +:+ ", score=" +:+ F.fmt2 sc +:+ ", w="
    +:+ F.fmt2 w +:+ ")".

Definition driver_pretty (x : detail) : string :=
  let '(f, _, _, _) := x in prettify_feature_name f.

(** Lines 200-232: the row emitted for tenant [a], its match [b] and the
    rank of the match. *)
Definition explain_row (a b : profile) (rank : nat) (compat_score : float)
  (details : list detail) : match_row :=
  let top3 := take 3 details in
  let driver_parts := map driver_part top3 in
  let driver_pretty := map driver_pretty top3 in
  let explanation_short :=
    "High compatibility driven by " +:+ join ", " driver_pretty +:+ "." in
  let explanation_long :=
    tenant_label a +:+ " matches well with " +:+ tenant_label b
    +:+ " (score " +:+ F.fmt2 compat_score +:+ "%). Top drivers: "
    +:+ join ", " driver_pretty +:+ ". "
    +:+ "Note: similarity rewards close values, while complementarity rewards balanced pairs "
    +:+ "(on a 1..5 scale, best when a+b is about 6)." in
  {| row_user_id := user_id a;
     row_tenant_label := tenant_label a;
     match_rank := rank;
     match_user_id := user_id b;
     match_tenant_label := tenant_label b;
     compatibility_score := F.round2 compat_score;
     top_drivers := join "; " driver_parts;
     explanation_short := explanation_short;
     explanation_long := explanation_long |}.

(** Body of the loop over [top] (lines 197-232); the loop state is
    [out_rows].  [records[j_idx]] raises [IndexError] out of range. *)
Definition row_step (records : list profile) (a : profile)
  (out_rows : list match_row) (item : nat * candidate)
  : result (list match_row) :=
  let '(rank, (j_idx, compat_score, details)) := item in
  match records !! j_idx with
  | None => Raise IndexError
  | Some b => Ok (out_rows ++ [explain_row a b rank compat_score details])
  end.

(** The key [x[1]] of the candidates. *)
Definition compat_of (c : candidate) : float := c.1.2.

(** Body of the loop over the tenants [a] (lines 170-232); the loop state is
    [out_rows]. *)
Definition tenant_step (records : list profile) (top_n : Z)
  (out_rows : list match_row) (a : profile) : result (list match_row) :=
  candidates ← for_each (candidate_step a) (enumerate 0 records) [];
  let top := slice_to (sort_desc compat_of candidates) top_n in
  for_each (row_step records a) (enumerate 1 top) out_rows.

Definition compute_top_matches (records : list profile) (top_n : Z)
  : result (list match_row) :=
  for_each (tenant_step records top_n) records [].

End Engine.

(** ** Descriptions used in the statements *)

(** [float(v)] returns. *)
Definition convertible (v : cell) : bool :=
  match to_float v with
  | Ok _ => true
  | Raise _ => false
  end.

(** Every cell of the record is a number that [float] converts. *)
Definition numeric_cells (p : profile) : Prop :=
  forall f v, attrs p !! f = Some v -> convertible v = true.

(** The two records have the same columns, as two records of one frame
    do. *)
Definition same_columns (a b : profile) : Prop :=
  forall f, is_Some (attrs a !! f) <-> is_Some (attrs b !! f).

(** Two calls return the same value, or both raise. *)
Definition agree {A : Type} (x y : result A) : Prop :=
  match x, y with
  | Ok u, Ok v => u = v
  | Raise _, Raise _ => True
  | _, _ => False
  end.






Section Views.
Context (cfg : config).

(** Every configured attribute is a column of the record and holds a
    number that [float] converts: any float, or an int that does not
    overflow. *)
Definition has_columns (p : profile) : bool :=
  forallb (fun f =>
    match attrs p !! f with
    | Some v => convertible v
    | None => false
    end) (FEATURES cfg).

(** The grades [SCALE_MIN .. SCALE_MAX]. *)
Definition scale_values : list Z :=
  seqZ (SCALE_MIN cfg) (SCALE_MAX cfg - SCALE_MIN cfg + 1).

(** A cell holds a grade of the scale, as an int or as the float of one. *)
Definition cell_on_scale (v : cell) : bool :=
  match to_float v with
  | Ok x => existsb (fun z => F.same x (F.of_int z)) scale_values
  | Raise _ => false
  end.

Definition on_scale (p : profile) : bool :=
  forallb (fun f =>
    match attrs p !! f with
    | Some v => cell_on_scale v
    | None => false
    end) (FEATURES cfg).

(** The components of a tuple of [per_feature_details]. *)
Definition feature_of (d : detail) : string := d.1.1.1.
Definition score_of (d : detail) : float := d.1.1.2.
Definition weight_in (d : detail) : float := d.1.2.
Definition mode_of (d : detail) : string := d.2.

(** [d] is the tuple computed for its attribute from the cells of [a] and
    [b]. *)
Definition contribution_of (a b : profile) (d : detail) : Prop :=
  exists ca cb av bv,
    attrs a !! feature_of d = Some ca /\ to_float ca = Ok av /\
    attrs b !! feature_of d = Some cb /\ to_float cb = Ok bv /\
    feature_score cfg (feature_of d) av bv = Ok (score_of d, mode_of d) /\
    weight_in d = weight_of cfg (feature_of d).

(** Every pair of records of the table can be scored. *)
Definition scorable (records : list profile) : Prop :=
  forall a b, a ∈ records -> b ∈ records ->
    exists compat details, score_pair cfg a b = Ok (compat, details).

(** What one turn of the loop over the candidates appends. *)
Definition candidate_of (a : profile) (jb : nat * profile) : list candidate :=
  let '(j, b) := jb in
  if decide (user_id a = user_id b) then []
  else
    match score_pair cfg a b with
    | Ok (compat, details) => [(j, compat, details)]
    | Raise _ => []
    end.

Definition candidates_of (records : list profile) (a : profile)
  : list candidate :=
  flat_map (candidate_of a) (enumerate 0 records).

(** The full descending ordering of the candidates of [a]. *)
Definition ranking (records : list profile) (a : profile) : list candidate :=
  sort_desc compat_of (candidates_of records a).

(** What one turn of the loop over [top] appends. *)
Definition row_of (records : list profile) (a : profile)
  (item : nat * candidate) : list match_row :=
  let '(rank, (j_idx, compat_score, details)) := item in
  match records !! j_idx with
  | Some b => [explain_row a b rank compat_score details]
  | None => []
  end.

(** The rows emitted for tenant [a]. *)
Definition rows_of (records : list profile) (top_n : Z) (a : profile)
  : list match_row :=
  flat_map (row_of records a) (enumerate 1 (slice_to (ranking records a) top_n)).

(** A row renders the candidate [c] of tenant [a]. *)
Definition renders (records : list profile) (a : profile) (c : candidate)
  (row : match_row) : Prop :=
  exists b,
    records !! c.1.1 = Some b /\
    user_id b <> user_id a /\
    score_pair cfg a b = Ok (c.1.2, c.2) /\
    row_user_id row = user_id a /\
    match_user_id row = user_id b /\
    compatibility_score row = F.round2 c.1.2 /\
    top_drivers row = join "; " (map driver_part (take 3 c.2)) /\
    explanation_short row =
      "High compatibility driven by "
      +:+ join ", " (map driver_pretty (take 3 c.2)) +:+ ".".



End Views.

(** The percentage emitted for the ordered pair [(a, b)]. *)
Definition pair_percentage (cfg : config) (a b : profile) : result float :=
  '(compat, _) ← score_pair cfg a b;
  Ok (F.round2 compat).

(** Tables used as examples: three tenants with grades on the scale, and a
    table with cells outside the scale. *)
Definition graded (i : Z) (label : string) (grades : list Z) : profile :=
  {| user_id := i;
     tenant_label := label;
     attrs := list_to_map (zip (FEATURES default_config) (CInt <$> grades)) |}.

Definition three_tenants : list profile := [
  graded 7 "Tenant_007" [1; 2; 3; 4; 5; 1; 2; 3; 4; 5];
  graded 3 "Tenant_003" [5; 4; 3; 2; 1; 5; 4; 3; 2; 1];
  graded 9 "Tenant_009" [1; 2; 3; 4; 5; 5; 2; 3; 4; 1]
].

Definition off_scale_tenants : list profile := [
  graded 1 "Tenant_001" [0; 9; -4; 1000; 5; 1; 2; 3; 4; 5];
  {| user_id := 2;
     tenant_label := "Tenant_002";
     attrs := list_to_map (zip (FEATURES default_config)
       (CFloat <$> [S754_nan; S754_infinity false; S754_infinity true;
                    F.lit 75 10; F.lit (-3) 1; F.lit 1 1; F.lit 2 1; F.lit 3 1;
                    F.lit 4 1; F.lit 11 2])) |}
].

(** A configuration with two attributes, and one with the four attributes
    of the explanation scenario of the specification (contributions 1.2,
    0.9, 0.5 and 0.1 for equal grades). *)
Definition two_attributes : config := {|
  FEATURES := ["noise_tolerance"; "sociability_level"];
  WEIGHTS := list_to_map [("noise_tolerance", F.lit 13 10);
                          ("sociability_level", F.lit 10 10)];
  SCORING_MODE := list_to_map [("noise_tolerance", "similarity");
                               ("sociability_level", "complementarity")];
  SCALE_MIN := 1;
  SCALE_MAX := 5
|}.

Definition four_attributes : config := {|
  FEATURES := ["attr4"; "attr2"; "attr1"; "attr3"];
  WEIGHTS := list_to_map [("attr1", F.lit 12 10); ("attr2", F.lit 9 10);
                          ("attr3", F.lit 5 10); ("attr4", F.lit 1 10)];
  SCORING_MODE := ∅;
  SCALE_MIN := 1;
  SCALE_MAX := 5
|}.

Definition with_cells (i : Z) (label : string) (cells : list (string * cell))
  : profile :=
  {| user_id := i; tenant_label := label; attrs := list_to_map cells |}.

Definition two_attribute_tenants : list profile := [
  with_cells 1 "Tenant_001" [("noise_tolerance", CInt 2); ("sociability_level", CInt 1)];
  with_cells 2 "Tenant_002" [("noise_tolerance", CInt 3); ("sociability_level", CInt 5)]
].

Definition four_attribute_tenants : list profile := [
  with_cells 1 "Tenant_001"
    [("attr1", CInt 3); ("attr2", CInt 3); ("attr3", CInt 3); ("attr4", CInt 3)];
  with_cells 2 "Tenant_002"
    [("attr1", CInt 3); ("attr2", CInt 3); ("attr3", CInt 3); ("attr4", CInt 3)]
].

(** Section 4.1 of the specification, on rationals. *)
Definition Qclamp01 (q : Q) : Q := Qmax 0 (Qmin 1 q).

Definition spec_similarity (lo hi a b : Z) : Q :=
  Qclamp01 (1 - Qabs (inject_Z a - inject_Z b) / inject_Z (hi - lo)).

Definition spec_complementarity (lo hi a b : Z) : Q :=
  Qclamp01 (1 - Qabs (inject_Z a + inject_Z b - inject_Z (lo + hi))
                / inject_Z (hi - lo)).


(** ** Sums reachable on the scale

    With grades on the scale every attribute score is one of five values, so
    the weighted sums a pair can reach form a small set, computed here
    attribute by attribute. *)

Definition set_add (x : float) (l : list float) : list float :=
  if existsb (F.same x) l then l else x :: l.

Definition dedupe (l : list float) : list float := foldr set_add [] l.

Definition scale_scores : list float :=
  [F.zero; F.lit 1 4; F.lit 1 2; F.lit 3 4; F.one].

Definition reach_step (w : float) (R : list float) : list float :=
  dedupe (flat_map (fun r => map (fun s => F.add r (F.mul w s)) scale_scores) R).

Definition reach (fs : list string) (R : list float) : list float :=
  foldl (fun R f => reach_step (weight_of default_config f) R) R fs.

Definition reachable_sums : list float :=
  reach (FEATURES default_config) [F.zero].

Definition percent_of_sum (weighted_sum : float) : float :=
  F.mul (F.div weighted_sum (total_weight default_config)) F.hundred.

Definition reachable_percents : list float :=
  dedupe (map percent_of_sum reachable_sums).

(** A reachable percentage with its rounded value. *)
Definition with_rounded (x : float) : float * float := (x, F.round2 x).

(** Every reachable percentage is a number and rounds into [0, 100], and
    rounding keeps the order of the reachable percentages. *)
Definition scale_checks : bool :=
  let P := map with_rounded reachable_percents in
  forallb (fun p =>
    negb (F.is_nan p.1) && F.leb F.zero p.2 && F.leb p.2 F.hundred) P
  && forallb (fun p =>
       forallb (fun q => implb (negb (F.ltb p.1 q.1)) (F.leb q.2 p.2)) P) P.

(** ** Labels and synthetic profiles *)

Fixpoint zeros (n : nat) : string :=
  match n with
  | O => EmptyString
  | S n' => String "0"%char (zeros n')
  end.

(** [format(z, "03d")]: the decimal digits, padded with zeros after the sign
    up to three characters, the sign included. *)
Definition fmt_03d (z : Z) : string :=
  let sign := if z <? 0 then "-" else EmptyString in
  let body := pretty (Z.abs_N z) in
  sign +:+ zeros (3 - String.length sign - String.length body) +:+ body.

Definition make_tenant_label (user_id : Z) : string :=
  "Tenant_" +:+ fmt_03d user_id.

(** Reading a decimal numeral back, used to show that labels determine the
    id. *)
Definition digit_value (c : ascii) : N := N.of_nat (nat_of_ascii c - 48).

Fixpoint digits_value (acc : N) (s : string) : N :=
  match s with
  | EmptyString => acc
  | String c r => digits_value (acc * 10 + digit_value c) r
  end.

Definition int_of_numeral (s : string) : Z :=
  match s with
  | String "-"%char r => - Z.of_N (digits_value 0 r)
  | _ => Z.of_N (digits_value 0 s)
  end.

Definition N_PROFILES : nat := 300.

(** [generate_synthetic_profiles(n, seed)].  The random source is a
    parameter: [draw k i] is entry [i] of the array returned by the [k]-th
    call of [np.random.randint(SCALE_MIN, SCALE_MAX + 1, size=n)], which the
    seed determines.  [data] maps every attribute to its column, a later
    assignment to the same key replacing an earlier one; the rows are the
    records of the resulting frame. *)
Definition generate_synthetic_profiles (cfg : config) (draw : nat -> nat -> Z)
  (n : nat) : list profile :=
  let data : gmap string (nat -> Z) :=
    foldl (fun data kf => <[kf.2 := draw kf.1]> data) ∅
      (enumerate 0 (FEATURES cfg)) in
  map (fun i =>
         let uid := Z.of_nat (S i) in
         {| user_id := uid;
            tenant_label := make_tenant_label uid;
            attrs := (fun column => CInt (column i)) <$> data |})
    (seq 0 n).

(** The script ([__main__]) without the two files it writes: the profiles
    and their matches. *)
Definition main (draw : nat -> nat -> Z)
  : result (list profile * list match_row) :=
  let profiles := generate_synthetic_profiles default_config draw N_PROFILES in
  matches ← compute_top_matches default_config profiles TOP_N;
  Ok (profiles, matches).

(** More examples: a table whose first cell is an int beyond the range of
    the floats, and a configuration whose weights sum to zero. *)
Definition huge_int_tenants : list profile := [
  graded 1 "Tenant_001" [10 ^ 400; 2; 3; 4; 5; 1; 2; 3; 4; 5];
  graded 2 "Tenant_002" [1; 2; 3; 4; 5; 1; 2; 3; 4; 5]
].

Definition zero_weights : config := {|
  FEATURES := ["noise_tolerance"];
  WEIGHTS := list_to_map [("noise_tolerance", F.zero)];
  SCORING_MODE := ∅;
  SCALE_MIN := 1;
  SCALE_MAX := 5
|}.

(** A draw of grades used as an example: the grades cycle through the
    scale. *)
Definition cycling_draw (k i : nat) : Z := Z.of_nat ((k + i) mod 5) + 1.

(** Printing a reachable percentage with two decimals gives the same text
    before and after [round(x, 2)]. *)
Definition printing_checks : bool :=
  forallb (fun x => String.eqb (F.fmt2 x) (F.fmt2 (F.round2 x)))
    reachable_percents.


(** * Properties *)

(** ** The order of floats *)

Lemma ltb_rank x y :
  F.is_nan x = false -> F.is_nan y = false ->
  F.ltb x y = true <-> F.rank_lt (F.rank x) (F.rank y).
Proof.
  unfold F.ltb, SFltb, F.rank_lt.
  destruct x as [s|s| |s m e], y as [t|t| |t n f]; try discriminate;
    intros _ _; repeat match goal with b : bool |- _ => destruct b end;
    cbn -[Z.compare Pos.compare_cont]; try (split; [discriminate || lia | lia || done]).
  all: change (Pos.compare_cont Eq m n) with (Pos.compare m n).
  all: destruct (Z.compare_spec e f); destruct (Pos.compare_spec m n);
    cbn; split; intros; try discriminate; try done; try lia.
Qed.

Lemma leb_rank x y :
  F.is_nan x = false -> F.is_nan y = false ->
  F.leb x y = true <-> ~ F.rank_lt (F.rank y) (F.rank x).
Proof.
  unfold F.leb, SFleb, F.rank_lt.
  destruct x as [s|s| |s m e], y as [t|t| |t n f]; try discriminate;
    intros _ _; repeat match goal with b : bool |- _ => destruct b end;
    cbn -[Z.compare Pos.compare_cont]; try (split; [discriminate || lia | lia || done]).
  all: change (Pos.compare_cont Eq m n) with (Pos.compare m n).
  all: destruct (Z.compare_spec e f); destruct (Pos.compare_spec m n);
    cbn; split; intros; try discriminate; try done; try lia.
Qed.

Lemma ltb_not_nan x y : F.ltb x y = true -> F.is_nan x = false /\ F.is_nan y = false.
Proof. by destruct x as [| | |], y as [| | |]. Qed.

Lemma ltb_leb x y : F.ltb x y = true -> F.leb x y = true.
Proof.
  unfold F.ltb, F.leb, SFltb, SFleb. by destruct (SFcompare x y) as [[]|].
Qed.

Lemma ltb_asym x y : F.ltb x y = true -> F.ltb y x = false.
Proof.
  intros H. destruct (ltb_not_nan _ _ H) as [Hx Hy].
  apply (ltb_rank _ _ Hx Hy) in H.
  destruct (F.ltb y x) eqn:E; [|done].
  apply (ltb_rank _ _ Hy Hx) in E. unfold F.rank_lt in *. lia.
Qed.

Lemma not_ltb_leb x y :
  F.is_nan x = false -> F.is_nan y = false ->
  F.ltb x y = false -> F.leb y x = true.
Proof.
  intros Hx Hy H. apply (leb_rank _ _ Hy Hx). intros E.
  apply (ltb_rank _ _ Hx Hy) in E. congruence.
Qed.

Lemma not_ltb_trans x y z :
  F.is_nan x = false -> F.is_nan y = false -> F.is_nan z = false ->
  F.ltb x y = false -> F.ltb y z = false -> F.ltb x z = false.
Proof.
  intros Hx Hy Hz H1 H2.
  destruct (F.ltb x z) eqn:E; [|done].
  apply (ltb_rank _ _ Hx Hz) in E.
  assert (~ F.rank_lt (F.rank x) (F.rank y)) as N1
    by (intros C; apply (ltb_rank _ _ Hx Hy) in C; congruence).
  assert (~ F.rank_lt (F.rank y) (F.rank z)) as N2
    by (intros C; apply (ltb_rank _ _ Hy Hz) in C; congruence).
  unfold F.rank_lt in *. lia.
Qed.

Lemma leb_trans x y z :
  F.is_nan x = false -> F.is_nan y = false -> F.is_nan z = false ->
  F.leb x y = true -> F.leb y z = true -> F.leb x z = true.
Proof.
  intros Hx Hy Hz H1 H2.
  apply (leb_rank _ _ Hx Hy) in H1. apply (leb_rank _ _ Hy Hz) in H2.
  apply (leb_rank _ _ Hx Hz). unfold F.rank_lt in *. lia.
Qed.

Lemma same_eq x y : F.same x y = true <-> x = y.
Proof.
  destruct x as [s|s| |s m e], y as [t|t| |t n f]; cbn; try (split; [discriminate | done]);
    try done.
  - destruct s, t; cbn; split; (done || discriminate).
  - destruct s, t; cbn; split; (done || discriminate).
  - rewrite !andb_true_iff, Pos.eqb_eq, Z.eqb_eq.
    destruct s, t; cbn; split; try (intros [[? ?] ?]; congruence);
      try (intros [= ]; subst; done).
Qed.

(** ** Loops and lists *)

Lemma for_each_appends {A B : Type} (body : list B -> A -> result (list B))
    (g : A -> list B) (xs : list A) (s : list B) :
  (forall x s', x ∈ xs -> body s' x = Ok (s' ++ g x)) ->
  for_each body xs s = Ok (s ++ flat_map g xs).
Proof.
  revert s. induction xs as [|x xs IH]; intros s H; cbn.
  - by rewrite app_nil_r.
  - rewrite H by left. cbn. rewrite IH.
    + by rewrite <- (assoc_L (++)).
    + intros y s' Hy. apply H. by right.
Qed.

Lemma enumerate_length {A : Type} (start : nat) (xs : list A) :
  length (enumerate start xs) = length xs.
Proof. revert start. induction xs; intros; cbn; auto. Qed.

Lemma enumerate_elem {A : Type} (start j : nat) (x : A) (xs : list A) :
  (j, x) ∈ enumerate start xs ->
  (start <= j)%nat /\ xs !! (j - start)%nat = Some x.
Proof.
  revert start. induction xs as [|y xs IH]; intros start H; cbn in H.
  - by apply elem_of_nil in H.
  - apply elem_of_cons in H as [[= -> ->]|H].
    + split; [lia|]. by replace (start - start)%nat with 0%nat by lia.
    + apply IH in H as [H1 H2]. split; [lia|].
      replace (j - start)%nat with (S (j - S start)) by lia. done.
Qed.

Lemma enumerate_snd {A : Type} (start : nat) (xs : list A) :
  map snd (enumerate start xs) = xs.
Proof. revert start. induction xs; intros; cbn; f_equal; auto. Qed.

Lemma enumerate_fst {A : Type} (start : nat) (xs : list A) :
  map fst (enumerate start xs) = seq start (length xs).
Proof. revert start. induction xs; intros; cbn; f_equal; auto. Qed.

Lemma slice_to_length {A : Type} (xs : list A) (stop : Z) :
  length (slice_to xs stop) =
    if 0 <=? stop then Nat.min (Z.to_nat stop) (length xs)
    else (length xs - Z.to_nat (- stop))%nat.
Proof.
  unfold slice_to. destruct (0 <=? stop); rewrite length_take; lia.
Qed.

Lemma slice_to_prefix {A : Type} (xs : list A) (stop : Z) :
  exists k, slice_to xs stop = take k xs.
Proof. unfold slice_to. destruct (0 <=? stop); eauto. Qed.

Section SortFacts.
Context {A : Type} (key : A -> float).

Lemma insert_desc_perm x l : insert_desc key x l ≡ₚ x :: l.
Proof.
  induction l as [|y l IH]; cbn; [done|].
  destruct (F.ltb (key x) (key y)); [|done].
  rewrite IH. apply Permutation_swap.
Qed.

Lemma sort_desc_perm l : sort_desc key l ≡ₚ l.
Proof.
  induction l as [|x l IH]; cbn; [done|].
  rewrite insert_desc_perm. by constructor.
Qed.

Lemma sort_desc_length l : length (sort_desc key l) = length l.
Proof. apply Permutation_length, sort_desc_perm. Qed.

Lemma insert_desc_sorted x l :
  F.is_nan (key x) = false ->
  Forall (fun y => F.is_nan (key y) = false) l ->
  StronglySorted (not_below key) l ->
  StronglySorted (not_below key) (insert_desc key x l).
Proof.
  intros Hx Hl Hs. induction Hs as [|y l Hs IH Hy]; cbn.
  - repeat constructor.
  - apply Forall_cons in Hl as [Hny Hl].
    destruct (F.ltb (key x) (key y)) eqn:E.
    + constructor; [by apply IH|].
      rewrite insert_desc_perm. constructor; [|done].
      by apply ltb_asym.
    + constructor; [by constructor|].
      constructor; [done|].
      rewrite Forall_forall in Hy, Hl. apply Forall_forall. intros z Hz.
      unfold not_below in *.
      eapply not_ltb_trans; [done|apply Hny|by apply Hl|done|by apply Hy].
Qed.

Lemma sort_desc_sorted l :
  Forall (fun y => F.is_nan (key y) = false) l ->
  StronglySorted (not_below key) (sort_desc key l).
Proof.
  induction 1 as [|x l Hx Hl IH]; [constructor|].
  change (sort_desc key (x :: l)) with (insert_desc key x (sort_desc key l)).
  apply insert_desc_sorted; [done| |done].
  by rewrite sort_desc_perm.
Qed.

End SortFacts.

(** ** The attribute scorers *)

Lemma clamp01_cases x :
  clamp01 x = F.zero \/ clamp01 x = F.one \/
  (clamp01 x = x /\ F.ltb F.zero x = true /\ F.ltb x F.one = true).
Proof.
  unfold clamp01, py_min, py_max.
  destruct (F.ltb x F.one) eqn:E1.
  - destruct (F.ltb F.zero x) eqn:E2; auto.
  - right; left. reflexivity.
Qed.

Lemma clamp01_range x :
  F.leb F.zero (clamp01 x) = true /\ F.leb (clamp01 x) F.one = true.
Proof.
  destruct (clamp01_cases x) as [->|[->|(-> & H0 & H1)]]; [done|done|].
  split; by apply ltb_leb.
Qed.

(** A clamped score is [+0.0] or a positive finite number. *)
Lemma clamp01_shape x :
  clamp01 x = F.zero \/ exists m e, clamp01 x = S754_finite false m e.
Proof.
  destruct (clamp01_cases x) as [->|[->|(-> & H0 & H1)]]; [by left| |].
  - right. by eexists _, _.
  - right. destruct x as [s|[]| |[] m e]; try discriminate. by eexists _, _.
Qed.

Lemma of_int_0 : F.of_int 0 = F.zero.
Proof. reflexivity. Qed.

Lemma truediv_guarded x d :
  F.leb d (F.of_int 0) = false -> truediv x d = Ok (F.div x d).
Proof.
  unfold truediv. destruct d as [[]| | |]; try done.
Qed.

Section ScorerFacts.
Context (cfg : config).

Lemma similarity_score_total a b :
  exists v, similarity_score cfg a b = Ok v /\
    F.leb F.zero v = true /\ F.leb v F.one = true.
Proof.
  unfold similarity_score.
  destruct (F.leb (F.of_int (SCALE_MAX cfg - SCALE_MIN cfg)) (F.of_int 0)) eqn:E.
  - by exists F.one.
  - rewrite (truediv_guarded _ _ E). cbn. eexists. split; [done|].
    apply clamp01_range.
Qed.

Lemma complementarity_score_total a b :
  exists v, complementarity_score cfg a b = Ok v /\
    F.leb F.zero v = true /\ F.leb v F.one = true.
Proof.
  unfold complementarity_score.
  destruct (F.leb (F.of_int (SCALE_MAX cfg - SCALE_MIN cfg)) (F.of_int 0)) eqn:E.
  - by exists F.one.
  - rewrite (truediv_guarded _ _ E). cbn. eexists. split; [done|].
    apply clamp01_range.
Qed.

Lemma feature_score_total f a b :
  exists v mode, feature_score cfg f a b = Ok (v, mode) /\
    F.leb F.zero v = true /\ F.leb v F.one = true.
Proof.
  unfold feature_score. case_decide.
  - destruct (complementarity_score_total a b) as (v & -> & Hv).
    by exists v, "complementarity"%string.
  - destruct (similarity_score_total a b) as (v & -> & Hv).
    by exists v, "similarity"%string.
Qed.

(** A score is [+0.0] or a positive finite number, whatever the inputs. *)
Lemma similarity_score_shape a b v :
  similarity_score cfg a b = Ok v ->
  v = F.zero \/ exists m e, v = S754_finite false m e.
Proof.
  unfold similarity_score.
  destruct (F.leb _ _) eqn:E.
  - intros [= <-]. right. by eexists _, _.
  - rewrite (truediv_guarded _ _ E). cbn. intros [= <-]. apply clamp01_shape.
Qed.

Lemma complementarity_score_shape a b v :
  complementarity_score cfg a b = Ok v ->
  v = F.zero \/ exists m e, v = S754_finite false m e.
Proof.
  unfold complementarity_score.
  destruct (F.leb _ _) eqn:E.
  - intros [= <-]. right. by eexists _, _.
  - rewrite (truediv_guarded _ _ E). cbn. intros [= <-]. apply clamp01_shape.
Qed.

Lemma feature_score_shape f a b v mode :
  feature_score cfg f a b = Ok (v, mode) ->
  v = F.zero \/ exists m e, v = S754_finite false m e.
Proof.
  unfold feature_score. case_decide.
  - destruct (complementarity_score cfg a b) eqn:E; cbn; [|done].
    intros [= <- _]. by eapply complementarity_score_shape.
  - destruct (similarity_score cfg a b) eqn:E; cbn; [|done].
    intros [= <- _]. by eapply similarity_score_shape.
Qed.

End ScorerFacts.

(** *** Symmetry of the float operations *)

Lemma abs_round_aux_sign s t m e l :
  SFabs (binary_round_aux F.prec F.emax s m e l)
  = SFabs (binary_round_aux F.prec F.emax t m e l).
Proof.
  unfold binary_round_aux.
  destruct (shr_fexp _ _ _ _ _) as [mrs e1].
  destruct (shr_fexp _ _ _ _ _) as [mrs' e2].
  destruct (shr_m mrs'); [done| |done].
  by destruct (_ <=? _)%Z.
Qed.

Lemma abs_normalize_opp z e :
  SFabs (binary_normalize F.prec F.emax (- z) e false)
  = SFabs (binary_normalize F.prec F.emax z e false).
Proof.
  destruct z as [|p|p]; unfold Z.opp, binary_normalize, binary_round; [done| |];
    destruct (shl_align _ _ _); apply abs_round_aux_sign.
Qed.

Lemma abs_sub_sym a b : F.abs (F.sub a b) = F.abs (F.sub b a).
Proof.
  unfold F.abs, F.sub.
  destruct a as [s|s| |s m e], b as [t|t| |t n f];
    try (by destruct s, t); try done.
  cbn -[binary_normalize shl_align].
  rewrite (Z.min_comm f e).
  rewrite <- abs_normalize_opp. f_equal. f_equal. lia.
Qed.

Lemma add_comm a b : F.add a b = F.add b a.
Proof.
  unfold F.add.
  destruct a as [s|s| |s m e], b as [t|t| |t n f];
    try (by destruct s, t); try done.
  cbn -[binary_normalize shl_align].
  rewrite (Z.min_comm f e). f_equal. lia.
Qed.

Lemma similarity_score_sym cfg a b :
  similarity_score cfg a b = similarity_score cfg b a.
Proof. unfold similarity_score. by rewrite (abs_sub_sym a b). Qed.

Lemma complementarity_score_sym cfg a b :
  complementarity_score cfg a b = complementarity_score cfg b a.
Proof. unfold complementarity_score. by rewrite (add_comm a b). Qed.

Lemma feature_score_sym cfg f a b :
  feature_score cfg f a b = feature_score cfg f b a.
Proof.
  unfold feature_score.
  by rewrite (similarity_score_sym cfg a b), (complementarity_score_sym cfg a b).
Qed.

(** ** The loops of [compute_top_matches] *)

Lemma elem_of_flat_map {A B : Type} (f : A -> list B) (l : list A) (y : B) :
  y ∈ flat_map f l <-> exists x, x ∈ l /\ y ∈ f x.
Proof.
  rewrite list_elem_of_In, in_flat_map. by setoid_rewrite list_elem_of_In.
Qed.

Lemma filter_all {A : Type} (P : A -> Prop) `{!forall x, Decision (P x)}
    (l : list A) :
  Forall P l -> filter P l = l.
Proof.
  induction 1 as [|x l Hx Hl IH]; [done|].
  by rewrite filter_cons_True, IH.
Qed.

Section LoopFacts.
Context (cfg : config).

Lemma has_columns_lookup p f :
  has_columns cfg p = true -> f ∈ FEATURES cfg ->
  exists v x, attrs p !! f = Some v /\ to_float v = Ok x.
Proof.
  unfold has_columns. rewrite forallb_forall. intros H Hf.
  apply list_elem_of_In, H in Hf.
  destruct (attrs p !! f) as [v|]; [|done].
  unfold convertible in Hf. destruct (to_float v) as [x|] eqn:E; [|done].
  by exists v, x.
Qed.

(** One turn of the loop over the attributes when both cells are read. *)
Lemma feature_step_cells a b ws ds f ca cb av bv :
  attrs a !! f = Some ca -> to_float ca = Ok av ->
  attrs b !! f = Some cb -> to_float cb = Ok bv ->
  feature_step cfg a b (ws, ds) f
  = '(sc, mode) ← feature_score cfg f av bv;
    Ok (F.add ws (F.mul (weight_of cfg f) sc),
        ds ++ [(f, sc, weight_of cfg f, mode)]).
Proof.
  intros Hca Hav Hcb Hbv. unfold feature_step, get_attr.
  rewrite Hca, Hcb. cbn. rewrite Hav. cbn. rewrite Hbv. done.
Qed.

Lemma feature_step_ok_inv a b ws ds f st :
  feature_step cfg a b (ws, ds) f = Ok st ->
  exists ca cb av bv sc mode,
    attrs a !! f = Some ca /\ to_float ca = Ok av /\
    attrs b !! f = Some cb /\ to_float cb = Ok bv /\
    feature_score cfg f av bv = Ok (sc, mode) /\
    st = (F.add ws (F.mul (weight_of cfg f) sc),
          ds ++ [(f, sc, weight_of cfg f, mode)]).
Proof.
  unfold feature_step, get_attr.
  destruct (attrs a !! f) as [ca|] eqn:Eca; [|done]. cbn.
  destruct (to_float ca) as [av|] eqn:Eav; [|done]. cbn.
  destruct (attrs b !! f) as [cb|] eqn:Ecb; [|done]. cbn.
  destruct (to_float cb) as [bv|] eqn:Ebv; [|done]. cbn.
  destruct (feature_score cfg f av bv) as [[sc mode]|] eqn:Es; [|done]. cbn.
  intros [= <-]. by exists ca, cb, av, bv, sc, mode.
Qed.

Lemma feature_loop_total a b fs st :
  (forall f, f ∈ fs -> f ∈ FEATURES cfg) ->
  has_columns cfg a = true -> has_columns cfg b = true ->
  exists ws details, for_each (feature_step cfg a b) fs st = Ok (ws, details).
Proof.
  intros Hfs Ha Hb. revert st.
  induction fs as [|f fs IH]; intros [ws ds]; cbn [for_each].
  - by eexists _, _.
  - destruct (has_columns_lookup a f Ha) as (ca & av & Hca & Hav);
      [apply Hfs; by left|].
    destruct (has_columns_lookup b f Hb) as (cb & bv & Hcb & Hbv);
      [apply Hfs; by left|].
    rewrite (feature_step_cells a b ws ds f ca cb av bv) by done.
    destruct (feature_score_total cfg f av bv) as (v & mode & -> & _). cbn.
    apply IH. intros g Hg. apply Hfs. by right.
Qed.

Lemma score_pair_total a b :
  F.is_zero (total_weight cfg) = false ->
  has_columns cfg a = true -> has_columns cfg b = true ->
  exists compat details, score_pair cfg a b = Ok (compat, details).
Proof.
  intros Hw Ha Hb. unfold score_pair.
  destruct (feature_loop_total a b (FEATURES cfg) (F.zero, []))
    as (ws & ds & ->); [done..|]. cbn.
  unfold truediv. rewrite Hw. cbn. by eexists _, _.
Qed.

Lemma columns_scorable records :
  F.is_zero (total_weight cfg) = false ->
  forallb (has_columns cfg) records = true ->
  scorable cfg records.
Proof.
  rewrite forallb_forall. intros Hw H a b Ha Hb.
  apply score_pair_total; [done|apply H|apply H]; by apply list_elem_of_In.
Qed.

Lemma candidate_step_appends a s j b :
  (exists compat details, score_pair cfg a b = Ok (compat, details)) ->
  candidate_step cfg a s (j, b) = Ok (s ++ candidate_of cfg a (j, b)).
Proof.
  intros (c & d & H). unfold candidate_step, candidate_of.
  case_decide; [by rewrite app_nil_r|]. by rewrite H.
Qed.

Lemma candidates_loop records a :
  scorable cfg records -> a ∈ records ->
  for_each (candidate_step cfg a) (enumerate 0 records) []
  = Ok (candidates_of cfg records a).
Proof.
  intros Hs Ha. unfold candidates_of.
  rewrite (for_each_appends _ (candidate_of cfg a)); [done|].
  intros [j b] s' Hjb. apply candidate_step_appends, Hs; [done|].
  apply enumerate_elem in Hjb as [_ Hjb]. by eapply list_elem_of_lookup_2.
Qed.

Lemma candidates_of_elem records a c :
  c ∈ candidates_of cfg records a ->
  exists b, records !! c.1.1 = Some b /\ user_id b <> user_id a /\
    score_pair cfg a b = Ok (c.1.2, c.2).
Proof.
  unfold candidates_of. rewrite elem_of_flat_map. intros ([j b] & Hjb & Hc).
  apply enumerate_elem in Hjb as [_ Hjb]. rewrite Nat.sub_0_r in Hjb.
  unfold candidate_of in Hc. case_decide; [by apply elem_of_nil in Hc|].
  destruct (score_pair cfg a b) as [[compat details]|] eqn:E;
    [|by apply elem_of_nil in Hc].
  apply list_elem_of_singleton in Hc as ->. cbn. exists b. by repeat split.
Qed.

Lemma ranking_elem records a c :
  c ∈ ranking cfg records a -> c ∈ candidates_of cfg records a.
Proof. unfold ranking. by rewrite sort_desc_perm. Qed.

Lemma slice_to_elem {A : Type} (xs : list A) (stop : Z) (x : A) :
  x ∈ slice_to xs stop -> x ∈ xs.
Proof.
  destruct (slice_to_prefix xs stop) as [k ->]. apply subseteq_take.
Qed.

Lemma explain_row_renders records a b rank c :
  records !! c.1.1 = Some b -> user_id b <> user_id a ->
  score_pair cfg a b = Ok (c.1.2, c.2) ->
  renders cfg records a c (explain_row a b rank c.1.2 c.2).
Proof. intros. exists b. by repeat split. Qed.

Lemma rows_loop_view records a (top : list candidate) (start : nat) :
  (forall c, c ∈ top -> c ∈ candidates_of cfg records a) ->
  let rows := flat_map (row_of records a) (enumerate start top) in
  Forall2 (renders cfg records a) top rows /\
  map match_rank rows = seq start (length top).
Proof.
  revert start. induction top as [|c top IH]; intros start H; cbn.
  - split; [constructor|done].
  - destruct (candidates_of_elem records a c) as (b & Hb & Hne & Hsc);
      [apply H; by left|].
    destruct c as [[j compat] details]. cbn in Hb. rewrite Hb. cbn.
    destruct (IH (S start)) as [IH1 IH2]; [intros; apply H; by right|].
    split; [|by f_equal].
    constructor; [|done].
    by apply (explain_row_renders records a b start (j, compat, details)).
Qed.

Lemma row_step_appends records a s rank c :
  c ∈ candidates_of cfg records a ->
  row_step records a s (rank, c) = Ok (s ++ row_of records a (rank, c)).
Proof.
  intros Hc. apply candidates_of_elem in Hc as (b & Hb & _).
  destruct c as [[j compat] details]. cbn in *. by rewrite Hb.
Qed.

Lemma tenant_step_appends records top_n s a :
  scorable cfg records -> a ∈ records ->
  tenant_step cfg records top_n s a = Ok (s ++ rows_of cfg records top_n a).
Proof.
  intros Hs Ha. unfold tenant_step. rewrite candidates_loop by done. cbn.
  apply for_each_appends. intros [rank c] s' Hc.
  apply row_step_appends.
  apply enumerate_elem in Hc as [_ Hc]. apply list_elem_of_lookup_2 in Hc.
  by apply ranking_elem, (slice_to_elem _ top_n).
Qed.

(** The output is, tenant after tenant, the rows of each one. *)
Lemma compute_top_matches_rows records top_n :
  scorable cfg records ->
  compute_top_matches cfg records top_n
  = Ok (flat_map (rows_of cfg records top_n) records).
Proof.
  intros Hs. unfold compute_top_matches.
  by rewrite (for_each_appends _ (rows_of cfg records top_n));
    [|intros; by apply tenant_step_appends].
Qed.

Lemma rows_of_view records top_n a :
  let top := slice_to (ranking cfg records a) top_n in
  Forall2 (renders cfg records a) top (rows_of cfg records top_n a) /\
  map match_rank (rows_of cfg records top_n a) = seq 1 (length top).
Proof.
  apply rows_loop_view. intros c Hc.
  by apply ranking_elem, (slice_to_elem _ top_n).
Qed.

Lemma rows_of_length records top_n a :
  length (rows_of cfg records top_n a)
  = length (slice_to (ranking cfg records a) top_n).
Proof.
  destruct (rows_of_view records top_n a) as [H _].
  symmetry. by eapply Forall2_length.
Qed.

Lemma candidates_count records a (start : nat) :
  (forall b, b ∈ records ->
     exists compat details, score_pair cfg a b = Ok (compat, details)) ->
  length (flat_map (candidate_of cfg a) (enumerate start records))
  = length (filter (fun b => user_id a <> user_id b) records).
Proof.
  revert start. induction records as [|b l IH]; intros start H; [done|].
  cbn [enumerate flat_map]. rewrite length_app, IH by (intros; apply H; by right).
  rewrite filter_cons. unfold candidate_of.
  destruct (H b) as (c & d & ->); [by left|].
  destruct (decide (user_id a = user_id b)), (decide (user_id a <> user_id b));
    cbn; done.
Qed.

Lemma count_others (records : list profile) a :
  NoDup (map user_id records) -> a ∈ records ->
  length (filter (fun b => user_id a <> user_id b) records)
  = (length records - 1)%nat.
Proof.
  induction records as [|x l IH]; intros Hnd Ha.
  - by apply elem_of_nil in Ha.
  - cbn in Hnd. apply NoDup_cons in Hnd as [Hx Hnd].
    rewrite filter_cons. apply elem_of_cons in Ha as [->|Ha].
    + case_decide; [done|]. cbn.
      rewrite Nat.sub_0_r. f_equal. apply filter_all.
      apply Forall_forall. intros b Hb E. apply Hx. rewrite E.
      by apply list_elem_of_fmap_2.
    + case_decide as E.
      * cbn. rewrite IH by done. apply list_elem_of_lookup in Ha as [i Hi].
        apply lookup_lt_Some in Hi. lia.
      * exfalso. apply Hx. rewrite <- E.
        by apply list_elem_of_fmap_2.
Qed.

Lemma ranking_length records a :
  scorable cfg records -> NoDup (map user_id records) -> a ∈ records ->
  length (ranking cfg records a) = (length records - 1)%nat.
Proof.
  intros Hs Hnd Ha. unfold ranking, candidates_of.
  rewrite sort_desc_length, candidates_count by (intros; by apply Hs).
  by apply count_others.
Qed.

End LoopFacts.

(** ** The engine with the constants of the module *)

Lemma default_total_weight : total_weight default_config = F.lit 105 10.
Proof. reflexivity. Qed.

Lemma default_total_weight_nonzero :
  F.is_zero (total_weight default_config) = false.
Proof. reflexivity. Qed.

(** The compensated summation of CPython 3.12 yields the same total. *)
Lemma default_total_weight_compensated :
  F.py_sum_compensated (map (weight_of default_config) (FEATURES default_config))
  = total_weight default_config.
Proof. reflexivity. Qed.

Lemma flat_map_nil {A B : Type} (g : A -> list B) (l : list A) :
  (forall x, x ∈ l -> g x = []) -> flat_map g l = [].
Proof.
  induction l as [|x l IH]; intros H; cbn; [done|].
  rewrite H by left. apply IH. intros. apply H. by right.
Qed.

Section RowFacts.
Context (cfg : config).

Lemma rows_of_elem records top_n a row :
  row ∈ rows_of cfg records top_n a ->
  exists c, c ∈ ranking cfg records a /\ renders cfg records a c row.
Proof.
  intros Hrow. destruct (rows_of_view cfg records top_n a) as [Hv _].
  cbn in Hv. apply list_elem_of_lookup in Hrow as [i Hi].
  destruct (Forall2_lookup_r _ _ _ _ _ Hv Hi) as (c & Hc & Hr).
  exists c. split; [|done].
  apply (slice_to_elem _ top_n). by eapply list_elem_of_lookup_2.
Qed.

Lemma rows_of_user_id records top_n a row :
  row ∈ rows_of cfg records top_n a -> row_user_id row = user_id a.
Proof.
  intros H. apply rows_of_elem in H as (c & _ & b & H). tauto.
Qed.

(** With unique ids the rows whose [user_id] is the one of [E] are the rows
    of [E]. *)
Lemma rows_for_tenant records top_n E (l : list profile) :
  NoDup (map user_id l) -> E ∈ l ->
  filter (fun r => row_user_id r = user_id E)
    (flat_map (rows_of cfg records top_n) l)
  = rows_of cfg records top_n E.
Proof.
  induction l as [|x l IH]; intros Hnd HE.
  - by apply elem_of_nil in HE.
  - cbn in Hnd. apply NoDup_cons in Hnd as [Hx Hnd].
    cbn [flat_map]. rewrite filter_app.
    assert (forall y, user_id y <> user_id E ->
      filter (fun r => row_user_id r = user_id E) (rows_of cfg records top_n y) = [])
      as Hother.
    { intros y Hy. apply elem_of_nil_inv. intros r Hr.
      apply list_elem_of_filter in Hr as [Hr1 Hr2].
      apply rows_of_user_id in Hr2. congruence. }
    apply elem_of_cons in HE as [->|HE].
    + rewrite filter_all.
      2:{ apply Forall_forall. intros r Hr. by eapply rows_of_user_id. }
      replace (filter _ (flat_map _ l)) with (@nil match_row);
        [by rewrite app_nil_r|].
      symmetry. apply elem_of_nil_inv. intros r Hr.
      apply list_elem_of_filter in Hr as [Hr1 Hr2].
      apply elem_of_flat_map in Hr2 as (y & Hy & Hr2).
      apply rows_of_user_id in Hr2. apply Hx.
      rewrite <- Hr1, Hr2. by apply list_elem_of_fmap_2.
    + rewrite Hother, IH by first [done | intros C; apply Hx; rewrite C;
        by apply list_elem_of_fmap_2]. done.
Qed.

End RowFacts.

(** C1: for a table with unique [user_id] values, a tenant [E] of it and
    [top_n >= 1], the engine emits exactly [min(top_n, n - 1)] rows for [E];
    the candidates of [E] are the records whose [user_id] differs from the one
    of [E], whatever their position, so no row matches a tenant with
    itself. *)
Theorem top_matches_count_no_self (records : list profile) (top_n : Z)
    (E : profile) :
  forallb (has_columns default_config) records = true ->
  NoDup (map user_id records) ->
  E ∈ records ->
  1 <= top_n ->
  exists rows,
    compute_top_matches default_config records top_n = Ok rows /\
    length (filter (fun r => row_user_id r = user_id E) rows)
      = Nat.min (Z.to_nat top_n) (length records - 1) /\
    (forall c, c ∈ candidates_of default_config records E ->
       exists b, records !! c.1.1 = Some b /\ user_id b <> user_id E) /\
    (forall r, r ∈ rows -> match_user_id r <> row_user_id r).
Proof.
  intros Hcols Hnd HE Htop.
  pose proof (columns_scorable _ _ default_total_weight_nonzero Hcols) as Hs.
  eexists. split; [by apply compute_top_matches_rows|].
  split; [|split].
  - rewrite rows_for_tenant, rows_of_length, slice_to_length by done.
    rewrite ranking_length by done.
    destruct (0 <=? top_n) eqn:E0; [done|]. lia.
  - intros c Hc. apply candidates_of_elem in Hc as (b & Hb & Hne & _). eauto.
  - intros r Hr. apply elem_of_flat_map in Hr as (a & Ha & Hr).
    apply rows_of_elem in Hr as (c & _ & b & _ & Hne & _ & Hu & Hm & _).
    congruence.
Qed.

Lemma top_matches_count_no_self_witness :
  exists rows,
    compute_top_matches default_config three_tenants 2 = Ok rows /\
    length (filter (fun r => row_user_id r = 3) rows) = 2%nat /\
    (forall c, c ∈ candidates_of default_config three_tenants
                     (graded 3 "Tenant_003" [5; 4; 3; 2; 1; 5; 4; 3; 2; 1]) ->
       exists b, three_tenants !! c.1.1 = Some b /\ user_id b <> 3) /\
    (forall r, r ∈ rows -> match_user_id r <> row_user_id r).
Proof.
  apply (top_matches_count_no_self three_tenants 2
           (graded 3 "Tenant_003" [5; 4; 3; 2; 1; 5; 4; 3; 2; 1])).
  - vm_compute. reflexivity.
  - apply (bool_decide_unpack _). vm_compute. exact I.
  - right. left.
  - lia.
Defined.

Lemma for_each_ext {A S : Type} (body1 body2 : S -> A -> result S)
    (xs : list A) (s : S) :
  (forall s' x, body1 s' x = body2 s' x) ->
  for_each body1 xs s = for_each body2 xs s.
Proof.
  intros H. revert s. induction xs as [|x xs IH]; intros s; cbn; [done|].
  rewrite H. destruct (body2 s x); cbn; auto.
Qed.

Lemma agree_refl {A : Type} (x : result A) : agree x x.
Proof. by destruct x. Qed.

Lemma for_each_agree {A S : Type} (body1 body2 : S -> A -> result S)
    (xs : list A) (s : S) :
  (forall s' x, agree (body1 s' x) (body2 s' x)) ->
  agree (for_each body1 xs s) (for_each body2 xs s).
Proof.
  intros H. revert s. induction xs as [|x xs IH]; intros s; cbn; [done|].
  specialize (H s x).
  destruct (body1 s x) as [s1|e1], (body2 s x) as [s2|e2]; cbn in *; try done.
  subst s2. apply IH.
Qed.

(** In the other order the same cells are read and converted, so the turn
    returns the same state or raises as well; the exception can differ, a
    missing column of one record being met before or after an int of the
    other that overflows. *)
Lemma feature_step_agree cfg a b st f :
  agree (feature_step cfg a b st f) (feature_step cfg b a st f).
Proof.
  unfold feature_step, get_attr. destruct st as [ws ds].
  destruct (attrs a !! f) as [ca|], (attrs b !! f) as [cb|]; cbn; try done.
  - destruct (to_float ca) as [av|], (to_float cb) as [bv|]; cbn; try done.
    rewrite (feature_score_sym cfg f av bv). apply agree_refl.
  - by destruct (to_float ca).
  - by destruct (to_float cb).
Qed.

Lemma score_pair_agree cfg a b :
  agree (score_pair cfg a b) (score_pair cfg b a).
Proof.
  unfold score_pair.
  pose proof (for_each_agree (feature_step cfg a b) (feature_step cfg b a)
                (FEATURES cfg) (F.zero, [])
                (fun s' x => feature_step_agree cfg a b s' x)) as H.
  destruct (for_each (feature_step cfg a b) _ _) as [[ws ds]|],
    (for_each (feature_step cfg b a) _ _) as [[ws' ds']|]; cbn in *; try done.
  injection H as <- <-. apply agree_refl.
Qed.

Lemma to_float_raise v e :
  to_float v = Raise e ->
  e = OverflowError /\ exists z, v = CInt z /\ 2 ^ 1024 - 2 ^ 970 <= Z.abs z.
Proof.
  destruct v as [z|x]; cbn; [|done]. unfold int_overflows.
  destruct (_ <=? _) eqn:E; [|done]. intros [= <-].
  apply Z.leb_le in E. split; [done|]. by exists z.
Qed.

Lemma numeric_cells_lookup p f v :
  numeric_cells p -> attrs p !! f = Some v -> exists x, to_float v = Ok x.
Proof.
  intros H Hv. apply H in Hv. unfold convertible in Hv.
  destruct (to_float v) as [x|]; [by exists x|done].
Qed.

(** The two orders raise the same exception as well when the two records
    have the same columns, as the records of one frame do, or when all their
    cells are numbers that [float] converts. *)
Lemma feature_step_sym cfg a b st f :
  same_columns a b \/ (numeric_cells a /\ numeric_cells b) ->
  feature_step cfg a b st f = feature_step cfg b a st f.
Proof.
  intros H. unfold feature_step, get_attr. destruct st as [ws ds].
  destruct (attrs a !! f) as [ca|] eqn:Eca, (attrs b !! f) as [cb|] eqn:Ecb;
    cbn; try done.
  - destruct (to_float ca) as [av|ea] eqn:Ea, (to_float cb) as [bv|eb] eqn:Eb;
      cbn; try done.
    + by rewrite (feature_score_sym cfg f av bv).
    + apply to_float_raise in Ea as [-> _]. by apply to_float_raise in Eb as [-> _].
  - destruct H as [H|[Ha _]].
    + exfalso. destruct (H f) as [H1 _]. rewrite Eca, Ecb in H1.
      by destruct H1 as [? [=]].
    + by destruct (numeric_cells_lookup a f ca Ha Eca) as [av ->].
  - destruct H as [H|[_ Hb]].
    + exfalso. destruct (H f) as [_ H2]. rewrite Eca, Ecb in H2.
      by destruct H2 as [? [=]].
    + by destruct (numeric_cells_lookup b f cb Hb Ecb) as [bv ->].
Qed.

Lemma score_pair_sym cfg a b :
  same_columns a b \/ (numeric_cells a /\ numeric_cells b) ->
  score_pair cfg a b = score_pair cfg b a.
Proof.
  intros H. unfold score_pair.
  by rewrite (for_each_ext _ (feature_step cfg b a))
    by (intros; by apply feature_step_sym).
Qed.

(** C3: the two scorers are symmetric in their arguments (for all floats, so
    in particular on the scale), and the percentage computed for the ordered
    pair [(A, B)] is the one computed for [(B, A)]: the two calls return the
    same percentage and drivers, or both raise.  For two records with the
    same columns, as the records of one frame have, and for two records
    whose cells are all numbers that [float] converts, the two results are
    equal also when they are an exception; otherwise one order can meet a
    missing column of one record where the other order first meets an int of
    the other record that overflows. *)
Theorem scores_symmetric (cfg : config) (a b : float) (A B : profile) :
  similarity_score cfg a b = similarity_score cfg b a /\
  complementarity_score cfg a b = complementarity_score cfg b a /\
  agree (score_pair cfg A B) (score_pair cfg B A) /\
  agree (pair_percentage cfg A B) (pair_percentage cfg B A) /\
  (same_columns A B \/ (numeric_cells A /\ numeric_cells B) ->
     score_pair cfg A B = score_pair cfg B A /\
     pair_percentage cfg A B = pair_percentage cfg B A).
Proof.
  split; [apply similarity_score_sym|].
  split; [apply complementarity_score_sym|].
  split; [apply score_pair_agree|].
  split.
  - unfold pair_percentage. pose proof (score_pair_agree cfg A B) as H.
    destruct (score_pair cfg A B) as [[c d]|], (score_pair cfg B A) as [[c' d']|];
      cbn in *; try done.
    by injection H as <- <-.
  - intros H. split; [by apply score_pair_sym|].
    unfold pair_percentage. by rewrite score_pair_sym.
Qed.

(** [float] accepts every float and every int below the midpoint between
    the largest binary64 number and [2^1024]. *)
Example to_float_boundary :
  to_float (CInt (2 ^ 1024 - 2 ^ 970 - 1))
    = Ok (S754_finite false 9007199254740991 971) /\
  F.of_int (2 ^ 1024 - 2 ^ 970) = S754_infinity false /\
  to_float (CInt (2 ^ 1024 - 2 ^ 970)) = Raise OverflowError /\
  to_float (CInt (- (2 ^ 1024 - 2 ^ 970))) = Raise OverflowError /\
  to_float (CInt (- 2 ^ 63)) = Ok (F.of_int (- 2 ^ 63)) /\
  to_float (CFloat (S754_infinity true)) = Ok (S754_infinity true).
Proof. repeat split; vm_compute; reflexivity. Qed.

Lemma to_float_cases v :
  match v with
  | CFloat x => to_float v = Ok x
  | CInt z =>
      (Z.abs z < 2 ^ 1024 - 2 ^ 970 -> to_float v = Ok (F.of_int z)) /\
      (2 ^ 1024 - 2 ^ 970 <= Z.abs z -> to_float v = Raise OverflowError)
  end.
Proof.
  destruct v as [z|x]; [|done]. unfold to_float, int_overflows.
  destruct (_ <=? _) eqn:E; [apply Z.leb_le in E|apply Z.leb_gt in E];
    split; intros H; first [done | lia].
Qed.

(** C9, as stated, fails: every attribute column of the two tenants holds a
    number, the first cell of the first tenant is the int [10^400], far
    outside the scale, and the call raises [OverflowError] when [float]
    converts that cell. *)
Lemma out_of_range_int_raises :
  forallb (fun p =>
     forallb (fun f => bool_decide (is_Some (attrs p !! f)))
       (FEATURES default_config)) huge_int_tenants = true /\
  to_float (CInt (10 ^ 400)) = Raise OverflowError /\
  compute_top_matches default_config huge_int_tenants 5 = Raise OverflowError.
Proof. repeat split; vm_compute; reflexivity. Qed.

(** C9, amended: whatever the two floats, also outside the scale, infinite
    or NaN, the scorers return a score in [0, 1] and raise nothing; [float]
    converts every float cell and every int cell of magnitude below
    [2^1024 - 2^970] (every int64 in particular) and raises [OverflowError]
    on the other ints; the engine raises nothing on a table whose records
    have every attribute column with a cell that [float] converts, whatever
    the values. *)
Theorem out_of_range_values_tolerated (cfg : config) (f : string)
    (a b : float) (records : list profile) (top_n : Z) :
  forallb (has_columns default_config) records = true ->
  (exists v, similarity_score cfg a b = Ok v /\
     F.leb F.zero v = true /\ F.leb v F.one = true) /\
  (exists v, complementarity_score cfg a b = Ok v /\
     F.leb F.zero v = true /\ F.leb v F.one = true) /\
  (exists v mode, feature_score cfg f a b = Ok (v, mode) /\
     F.leb F.zero v = true /\ F.leb v F.one = true) /\
  (forall x, to_float (CFloat x) = Ok x) /\
  (forall z, Z.abs z < 2 ^ 1024 - 2 ^ 970 ->
     to_float (CInt z) = Ok (F.of_int z)) /\
  (forall z, 2 ^ 1024 - 2 ^ 970 <= Z.abs z ->
     to_float (CInt z) = Raise OverflowError) /\
  (forall p g, p ∈ records -> g ∈ FEATURES default_config ->
     exists v x, attrs p !! g = Some v /\ to_float v = Ok x) /\
  exists rows, compute_top_matches default_config records top_n = Ok rows.
Proof.
  intros Hcols.
  split; [apply similarity_score_total|].
  split; [apply complementarity_score_total|].
  split; [apply feature_score_total|].
  split; [done|].
  split; [intros z; apply (to_float_cases (CInt z))|].
  split; [intros z; apply (to_float_cases (CInt z))|].
  split.
  - intros p g Hp Hg. apply (has_columns_lookup default_config); [|done].
    rewrite forallb_forall in Hcols. by apply Hcols, list_elem_of_In.
  - eexists. apply compute_top_matches_rows.
    by apply columns_scorable.
Qed.

Lemma out_of_range_values_tolerated_witness :
  (exists v, similarity_score default_config S754_nan (F.of_int 1000) = Ok v /\
     F.leb F.zero v = true /\ F.leb v F.one = true) /\
  (exists v, complementarity_score default_config S754_nan (F.of_int 1000) = Ok v /\
     F.leb F.zero v = true /\ F.leb v F.one = true) /\
  (exists v mode,
     feature_score default_config "privacy_need" S754_nan (F.of_int 1000)
     = Ok (v, mode) /\
     F.leb F.zero v = true /\ F.leb v F.one = true) /\
  (forall x, to_float (CFloat x) = Ok x) /\
  (forall z, Z.abs z < 2 ^ 1024 - 2 ^ 970 ->
     to_float (CInt z) = Ok (F.of_int z)) /\
  (forall z, 2 ^ 1024 - 2 ^ 970 <= Z.abs z ->
     to_float (CInt z) = Raise OverflowError) /\
  (forall p g, p ∈ off_scale_tenants -> g ∈ FEATURES default_config ->
     exists v x, attrs p !! g = Some v /\ to_float v = Ok x) /\
  exists rows, compute_top_matches default_config off_scale_tenants 5 = Ok rows.
Proof.
  apply (out_of_range_values_tolerated default_config "privacy_need"
           S754_nan (F.of_int 1000) off_scale_tenants 5).
  vm_compute. reflexivity.
Defined.

(** The rows of the table with cells outside the scale. *)
Example off_scale_rows :
  exists rows,
    compute_top_matches default_config off_scale_tenants 5 = Ok rows /\
    map (fun r => (row_user_id r, match_user_id r, F.fmt2 (compatibility_score r)))
      rows
    = [(1, 2, "40.95"%string); (2, 1, "40.95"%string)].
Proof. eexists. split; vm_compute; reflexivity. Qed.

(** ** The scorers on the scale 1..5 *)

(** Splits a grade of the scale into its five values. *)
Ltac scale_cases a :=
  let H := fresh in
  assert (a = 1 \/ a = 2 \/ a = 3 \/ a = 4 \/ a = 5) as H
    by (cbn in *; lia);
  destruct H as [->|[->|[->|[->| ->]]]].

Lemma similarity_score_degenerate cfg x y :
  SCALE_MAX cfg = SCALE_MIN cfg -> similarity_score cfg x y = Ok F.one.
Proof. intros H. unfold similarity_score. by rewrite H, Z.sub_diag. Qed.

Lemma complementarity_score_degenerate cfg x y :
  SCALE_MAX cfg = SCALE_MIN cfg -> complementarity_score cfg x y = Ok F.one.
Proof. intros H. unfold complementarity_score. by rewrite H, Z.sub_diag. Qed.

(** Identical finite values score 1, also off the scale. *)
Lemma similarity_score_self x :
  (exists s, x = S754_zero s) \/ (exists s m e, x = S754_finite s m e) ->
  similarity_score default_config x x = Ok F.one.
Proof.
  intros [[s ->]|(s & m & e & ->)]; unfold similarity_score.
  - by destruct s.
  - replace (F.sub (S754_finite s m e) (S754_finite s m e)) with F.zero; [done|].
    unfold F.sub, SFsub. by rewrite Z.sub_diag.
Qed.

(** C5: on the scale 1..5 the float returned by [similarity_score] is exactly
    the rational [1 - |a - b| / (SCALE_MAX - SCALE_MIN)] clamped to [0, 1];
    equal grades score 1.0, the two ends of the scale score 0.0, and with
    [SCALE_MAX = SCALE_MIN] the score is 1.0 and nothing is divided. *)
Theorem similarity_score_formula (a b : Z) :
  SCALE_MIN default_config <= a <= SCALE_MAX default_config ->
  SCALE_MIN default_config <= b <= SCALE_MAX default_config ->
  (exists v,
     similarity_score default_config (F.of_int a) (F.of_int b) = Ok v /\
     F.exactly v (spec_similarity (SCALE_MIN default_config)
                    (SCALE_MAX default_config) a b)) /\
  similarity_score default_config (F.of_int a) (F.of_int a) = Ok F.one /\
  similarity_score default_config (F.of_int (SCALE_MIN default_config))
    (F.of_int (SCALE_MAX default_config)) = Ok F.zero /\
  (forall cfg x y,
     SCALE_MAX cfg = SCALE_MIN cfg -> similarity_score cfg x y = Ok F.one).
Proof.
  intros Ha Hb. split; [|split; [|split]].
  - scale_cases a; scale_cases b;
      (eexists; split; [vm_compute; reflexivity|vm_compute; reflexivity]).
  - scale_cases a; vm_compute; reflexivity.
  - vm_compute; reflexivity.
  - apply similarity_score_degenerate.
Qed.

Lemma similarity_score_formula_witness :
  (exists v,
     similarity_score default_config (F.of_int 1) (F.of_int 2) = Ok v /\
     F.exactly v (spec_similarity (SCALE_MIN default_config)
                    (SCALE_MAX default_config) 1 2)) /\
  similarity_score default_config (F.of_int 1) (F.of_int 1) = Ok F.one /\
  similarity_score default_config (F.of_int (SCALE_MIN default_config))
    (F.of_int (SCALE_MAX default_config)) = Ok F.zero /\
  (forall cfg x y,
     SCALE_MAX cfg = SCALE_MIN cfg -> similarity_score cfg x y = Ok F.one).
Proof. apply (similarity_score_formula 1 2); cbn; lia. Defined.

(** The docstring of [similarity_score]: 1 against 2 scores 0.75. *)
Example similarity_1_2 :
  similarity_score default_config (F.of_int 1) (F.of_int 2) = Ok (F.lit 3 4).
Proof. reflexivity. Qed.

(** C6: on the scale 1..5 the float returned by [complementarity_score] is
    exactly [1 - |a + b - (SCALE_MIN + SCALE_MAX)| / (SCALE_MAX - SCALE_MIN)]
    clamped to [0, 1]; it is 1.0 exactly when [a + b = SCALE_MIN + SCALE_MAX]
    and 0.0 for two lowest and for two highest grades. *)
Theorem complementarity_score_formula (a b : Z) :
  SCALE_MIN default_config <= a <= SCALE_MAX default_config ->
  SCALE_MIN default_config <= b <= SCALE_MAX default_config ->
  (exists v,
     complementarity_score default_config (F.of_int a) (F.of_int b) = Ok v /\
     F.exactly v (spec_complementarity (SCALE_MIN default_config)
                    (SCALE_MAX default_config) a b) /\
     (v = F.one <-> a + b = SCALE_MIN default_config + SCALE_MAX default_config)) /\
  complementarity_score default_config (F.of_int (SCALE_MIN default_config))
    (F.of_int (SCALE_MIN default_config)) = Ok F.zero /\
  complementarity_score default_config (F.of_int (SCALE_MAX default_config))
    (F.of_int (SCALE_MAX default_config)) = Ok F.zero.
Proof.
  intros Ha Hb. split; [|split].
  - scale_cases a; scale_cases b;
      (eexists; split; [vm_compute; reflexivity|];
       split; [vm_compute; reflexivity|];
       split; intros E; first [reflexivity | (cbn in E; lia) | discriminate E]).
  - vm_compute; reflexivity.
  - vm_compute; reflexivity.
Qed.

Lemma complementarity_score_formula_witness :
  (exists v,
     complementarity_score default_config (F.of_int 2) (F.of_int 4) = Ok v /\
     F.exactly v (spec_complementarity (SCALE_MIN default_config)
                    (SCALE_MAX default_config) 2 4) /\
     (v = F.one <-> 2 + 4 = SCALE_MIN default_config + SCALE_MAX default_config)) /\
  complementarity_score default_config (F.of_int (SCALE_MIN default_config))
    (F.of_int (SCALE_MIN default_config)) = Ok F.zero /\
  complementarity_score default_config (F.of_int (SCALE_MAX default_config))
    (F.of_int (SCALE_MAX default_config)) = Ok F.zero.
Proof. apply (complementarity_score_formula 2 4); cbn; lia. Defined.

(** ** The drivers *)

(** Rounding a non-negative mantissa never produces NaN. *)
Lemma iter_pos_invariant {A : Type} (P : A -> Prop) (f : A -> A) :
  (forall x, P x -> P (f x)) -> forall p x, P x -> P (SpecFloat.iter_pos f p x).
Proof.
  intros Hf. induction p as [p IH|p IH|]; intros x Hx; cbn; auto.
Qed.

Lemma shr_1_nonneg mrs : 0 <= shr_m mrs -> 0 <= shr_m (shr_1 mrs).
Proof.
  destruct mrs as [m r s]. cbn. destruct m as [|[p|p|]|[p|p|]]; cbn; lia.
Qed.

Lemma shr_nonneg mrs e n : 0 <= shr_m mrs -> 0 <= shr_m (shr mrs e n).1.
Proof.
  intros H. destruct n as [|p|p]; cbn; [done| |done].
  by apply (iter_pos_invariant (fun x => 0 <= shr_m x)), H; apply shr_1_nonneg.
Qed.

Lemma shr_fexp_nonneg m e l :
  0 <= m -> 0 <= shr_m (shr_fexp F.prec F.emax m e l).1.
Proof.
  intros H. unfold shr_fexp. apply shr_nonneg. by destruct l as [|[]].
Qed.

Lemma round_nearest_even_nonneg m l : 0 <= m -> 0 <= round_nearest_even m l.
Proof.
  intros H. destruct l as [|[]]; cbn; try done; [|lia].
  destruct (Z.even m); lia.
Qed.



Section DriverFacts.
Context (cfg : config).

Lemma feature_loop_view a b fs ws ds ws' ds' :
  for_each (feature_step cfg a b) fs (ws, ds) = Ok (ws', ds') ->
  exists new,
    ds' = ds ++ new /\
    map feature_of new = fs /\
    Forall (contribution_of cfg a b) new /\
    ws' = fold_left (fun acc d => F.add acc (F.mul (weight_in d) (score_of d)))
            new ws.
Proof.
  revert ws ds. induction fs as [|f fs IH]; intros ws ds; cbn [for_each].
  - intros [= <- <-]. exists []. by rewrite app_nil_r.
  - destruct (feature_step cfg a b (ws, ds) f) as [st|] eqn:E; [|done]. cbn.
    apply feature_step_ok_inv in E
      as (ca & cb & av & bv & sc & mode & Hca & Hav & Hcb & Hbv & Hs & ->).
    intros H. apply IH in H as (new & -> & Hf & Hc & ->).
    exists ((f, sc, weight_of cfg f, mode) :: new).
    rewrite <- (assoc_L (++)). split; [done|].
    split; [by cbn; f_equal|]. split; [|done].
    constructor; [|done]. by exists ca, cb, av, bv.
Qed.

Lemma score_pair_view a b compat details :
  score_pair cfg a b = Ok (compat, details) ->
  exists ws contributions,
    for_each (feature_step cfg a b) (FEATURES cfg) (F.zero, [])
      = Ok (ws, contributions) /\
    map feature_of contributions = FEATURES cfg /\
    Forall (contribution_of cfg a b) contributions /\
    ws = fold_left (fun acc d => F.add acc (F.mul (weight_in d) (score_of d)))
           contributions F.zero /\
    F.is_zero (total_weight cfg) = false /\
    compat = F.mul (F.div ws (total_weight cfg)) F.hundred /\
    details = sort_desc contribution contributions.
Proof.
  unfold score_pair.
  destruct (for_each _ _ _) as [[ws ds]|] eqn:E; [|done]. cbn.
  unfold truediv. destruct (F.is_zero (total_weight cfg)) eqn:Ez; [done|]. cbn.
  intros [= <- <-]. apply feature_loop_view in E as (new & E & Hf & Hc & Hw).
  cbn in E. subst ds. by exists ws, new.
Qed.


End DriverFacts.


(** ** Printing with two decimals *)




Lemma StronglySorted_weaken {A : Type} (R R' : A -> A -> Prop) (l : list A) :
  (forall x y, R x y -> R' x y) -> StronglySorted R l -> StronglySorted R' l.
Proof.
  intros H. induction 1 as [|x l Hl IH Hx]; constructor; [done|].
  eapply Forall_impl; [exact Hx|]. intros y. apply H.
Qed.





(** With two attributes a row has two driver phrases. *)
Example two_attribute_rows :
  exists rows,
    compute_top_matches two_attributes two_attribute_tenants 5 = Ok rows /\
    map (fun r => (top_drivers r, explanation_short r)) rows
    = [("sociability_level(mode=complementarity, score=1.00, w=1.00); noise_tolerance(mode=similarity, score=0.75, w=1.30)"%string,
        "High compatibility driven by Sociability level, Noise tolerance."%string);
       ("sociability_level(mode=complementarity, score=1.00, w=1.00); noise_tolerance(mode=similarity, score=0.75, w=1.30)"%string,
        "High compatibility driven by Sociability level, Noise tolerance."%string)].
Proof. eexists. split; vm_compute; reflexivity. Qed.

(** The explanation scenario: contributions 1.2, 0.9, 0.5 and 0.1 list
    [attr1], [attr2] and [attr3] in that order, without [attr4]. *)
Example four_attribute_drivers :
  exists rows,
    compute_top_matches four_attributes four_attribute_tenants 1 = Ok rows /\
    map top_drivers rows
    = ["attr1(mode=similarity, score=1.00, w=1.20); attr2(mode=similarity, score=1.00, w=0.90); attr3(mode=similarity, score=1.00, w=0.50)"%string;
       "attr1(mode=similarity, score=1.00, w=1.20); attr2(mode=similarity, score=1.00, w=0.90); attr3(mode=similarity, score=1.00, w=0.50)"%string].
Proof. eexists. split; vm_compute; reflexivity. Qed.

(** ** Percentages are numbers *)

Lemma round_aux_not_negative m e l :
  0 <= m -> F.not_negative (binary_round_aux F.prec F.emax false m e l) = true.
Proof.
  intros H. unfold binary_round_aux.
  pose proof (shr_fexp_nonneg m e l H) as H1.
  destruct (shr_fexp F.prec F.emax m e l) as [mrs e1]. cbn in H1.
  pose proof (shr_fexp_nonneg _ e1 loc_Exact
    (round_nearest_even_nonneg _ (loc_of_shr_record mrs) H1)) as H2.
  destruct (shr_fexp _ _ _ _ _) as [mrs' e2]. cbn in H2.
  destruct (shr_m mrs'); [done| |lia].
  by destruct (_ <=? _)%Z.
Qed.

Lemma add_not_negative x y :
  F.not_negative x = true -> F.not_negative y = true ->
  F.not_negative (F.add x y) = true.
Proof.
  destruct x as [[]|[]| |[] m e], y as [[]|[]| |[] n f]; try done; intros _ _.
  unfold F.add, SFadd, cond_Zopp, binary_normalize.
  change (Z.pos ?p + Z.pos ?q) with (Z.pos (p + q)).
  unfold binary_round. destruct (shl_align _ _ _) as [mz ez].
  apply round_aux_not_negative. lia.
Qed.

Lemma mul_not_negative x y :
  F.not_negative x = true -> F.not_negative y = true ->
  F.is_finite x && F.is_finite y || F.positive_finite x || F.positive_finite y = true ->
  F.not_negative (F.mul x y) = true.
Proof.
  destruct x as [[]|[]| |[] m e], y as [[]|[]| |[] n f]; try done; intros _ _ _.
  apply round_aux_not_negative. lia.
Qed.

Lemma div_not_negative x y :
  F.not_negative x = true -> F.positive_finite y = true ->
  F.not_negative (F.div x y) = true.
Proof.
  destruct x as [[]|[]| |[] m e], y as [| | |[] n f]; try done; intros _ _.
  unfold F.div, SFdiv, SFdiv_core_binary.
  set (s := _ - _ - _).
  set (m' := match s with Z.pos _ => _ | Z0 => _ | Z.neg _ => _ end).
  assert (0 <= m') as Hm'.
  { subst m'. destruct s; [lia| |lia]. apply Z.shiftl_nonneg. lia. }
  pose proof (Z.div_pos m' (Z.pos n) Hm' ltac:(lia)) as Hq.
  unfold Z.div in Hq. destruct (Z.div_eucl m' (Z.pos n)) as [q r].
  cbn [xorb]. by apply round_aux_not_negative.
Qed.

Section NumberFacts.
Context (cfg : config).

Lemma weighted_sum_not_negative a b (ds : list detail) acc :
  Forall (fun d => F.positive_finite (weight_of cfg (feature_of d)) = true) ds ->
  Forall (contribution_of cfg a b) ds ->
  F.not_negative acc = true ->
  F.not_negative
    (fold_left (fun acc d => F.add acc (F.mul (weight_in d) (score_of d))) ds acc)
  = true.
Proof.
  intros Hw Hc. revert acc.
  induction ds as [|d ds IH]; intros acc Hacc; cbn [fold_left]; [done|].
  apply Forall_cons in Hw as [Hwd Hw]. apply Forall_cons in Hc as [Hcd Hc].
  apply IH; [done|done|]. apply add_not_negative; [done|].
  destruct Hcd as (ca & cb & av & bv & _ & _ & _ & _ & Hs & Hd).
  rewrite Hd.
  destruct (weight_of cfg (feature_of d)) as [| | |[] m e]; try done.
  apply feature_score_shape in Hs as [->|(m' & e' & ->)]; [done|].
  by apply mul_not_negative.
Qed.

(** With positive finite weights the percentage of a pair is never NaN. *)
Lemma score_pair_not_nan a b compat details :
  forallb (fun f => F.positive_finite (weight_of cfg f)) (FEATURES cfg) = true ->
  F.positive_finite (total_weight cfg) = true ->
  score_pair cfg a b = Ok (compat, details) ->
  F.is_nan compat = false.
Proof.
  intros Hw Ht H.
  apply score_pair_view in H as (ws & ds & _ & Hf & Hc & -> & _ & -> & _).
  assert (F.not_negative
            (F.mul (F.div (fold_left (fun acc d =>
               F.add acc (F.mul (weight_in d) (score_of d))) ds F.zero)
               (total_weight cfg)) F.hundred) = true) as Hn.
  { apply mul_not_negative; [|done|by rewrite !orb_true_r].
    apply div_not_negative; [|done].
    apply (weighted_sum_not_negative a b); [|done|done].
    apply Forall_forall. intros d Hd. rewrite forallb_forall in Hw. apply Hw.
    rewrite <- Hf. apply list_elem_of_In. by apply list_elem_of_fmap_2. }
  unfold F.not_negative in Hn. apply andb_prop in Hn as [Hn _].
  by apply negb_true_iff in Hn.
Qed.

(** The candidates of a tenant sorted by percentage: no candidate stands
    before one with a strictly larger percentage. *)
Lemma ranking_descending records a :
  forallb (fun f => F.positive_finite (weight_of cfg f)) (FEATURES cfg) = true ->
  F.positive_finite (total_weight cfg) = true ->
  StronglySorted (fun c1 c2 : candidate => F.ltb c1.1.2 c2.1.2 = false)
    (ranking cfg records a).
Proof.
  intros Hw Ht. unfold ranking.
  apply (StronglySorted_weaken (not_below compat_of)); [done|].
  apply sort_desc_sorted, Forall_forall. intros c Hc.
  apply candidates_of_elem in Hc as (b & _ & _ & Hsc).
  by apply (score_pair_not_nan a b _ c.2).
Qed.

End NumberFacts.

(** C10: [top_n = 0] emits no row; a negative [top_n] is a slice bound
    counted from the end, so every tenant gets the first
    [max(0, others - |top_n|)] candidates of its descending ordering, where
    [others] counts the records with another [user_id]: [n - 1] of them when
    the ids of the table are unique.  The descending ordering [full] holds
    every candidate once, each with the percentage computed for the pair, and
    no candidate stands before one with a strictly larger percentage. *)
Theorem top_n_zero_and_negative (records : list profile) (top_n : Z) :
  forallb (has_columns default_config) records = true ->
  top_n < 0 ->
  compute_top_matches default_config records 0 = Ok [] /\
  exists rows,
    compute_top_matches default_config records top_n = Ok rows /\
    rows = flat_map (rows_of default_config records top_n) records /\
    forall a, a ∈ records ->
      let others := length (filter (fun b => user_id a <> user_id b) records) in
      let k := Z.to_nat (Z.max 0 (Z.of_nat others - Z.abs top_n)) in
      let full := ranking default_config records a in
      let block := rows_of default_config records top_n a in
      full ≡ₚ candidates_of default_config records a /\
      (forall c, c ∈ full ->
         exists b, records !! c.1.1 = Some b /\ user_id b <> user_id a /\
           score_pair default_config a b = Ok (c.1.2, c.2)) /\
      StronglySorted (fun c1 c2 : candidate => F.ltb c1.1.2 c2.1.2 = false)
        full /\
      length full = others /\
      length block = k /\
      Forall2 (renders default_config records a) (take k full) block /\
      map match_rank block = seq 1 k /\
      (NoDup (map user_id records) ->
         others = (length records - 1)%nat /\
         block = filter (fun r => row_user_id r = user_id a) rows).
Proof.
  intros Hcols Hneg.
  pose proof (columns_scorable _ _ default_total_weight_nonzero Hcols) as Hs.
  split.
  - rewrite compute_top_matches_rows by done. f_equal.
    apply flat_map_nil. intros a _. reflexivity.
  - eexists. split; [by apply compute_top_matches_rows|]. split; [done|].
    intros a Ha others k full block.
    assert (length full = others) as Hlen.
    { unfold full, ranking, candidates_of.
      rewrite sort_desc_length. apply candidates_count. intros; by apply Hs. }
    destruct (rows_of_view default_config records top_n a) as [Hv Hr].
    cbn zeta in Hv, Hr. fold full block in Hv, Hr.
    assert (slice_to full top_n = take k full) as Hslice.
    { unfold slice_to. destruct (0 <=? top_n) eqn:E0; [lia|].
      rewrite Hlen. f_equal. lia. }
    rewrite Hslice in Hv, Hr.
    assert (length (take k full) = k) as Hk.
    { rewrite length_take, Hlen. lia. }
    rewrite Hk in Hr.
    split; [apply sort_desc_perm|].
    split.
    { intros c Hc. by apply candidates_of_elem, ranking_elem. }
    split; [by apply ranking_descending|].
    split; [done|].
    split; [apply Forall2_length in Hv; lia|].
    split; [done|]. split; [done|].
    intros Hnd. split; [by apply count_others|].
    symmetry. by apply rows_for_tenant.
Qed.

Lemma top_n_zero_and_negative_witness :
  compute_top_matches default_config three_tenants 0 = Ok [] /\
  exists rows,
    compute_top_matches default_config three_tenants (-1) = Ok rows /\
    rows = flat_map (rows_of default_config three_tenants (-1)) three_tenants /\
    forall a, a ∈ three_tenants ->
      let others :=
        length (filter (fun b => user_id a <> user_id b) three_tenants) in
      let k := Z.to_nat (Z.max 0 (Z.of_nat others - Z.abs (-1))) in
      let full := ranking default_config three_tenants a in
      let block := rows_of default_config three_tenants (-1) a in
      full ≡ₚ candidates_of default_config three_tenants a /\
      (forall c, c ∈ full ->
         exists b, three_tenants !! c.1.1 = Some b /\ user_id b <> user_id a /\
           score_pair default_config a b = Ok (c.1.2, c.2)) /\
      StronglySorted (fun c1 c2 : candidate => F.ltb c1.1.2 c2.1.2 = false)
        full /\
      length full = others /\
      length block = k /\
      Forall2 (renders default_config three_tenants a) (take k full) block /\
      map match_rank block = seq 1 k /\
      (NoDup (map user_id three_tenants) ->
         others = (length three_tenants - 1)%nat /\
         block = filter (fun r => row_user_id r = user_id a) rows).
Proof.
  apply (top_n_zero_and_negative three_tenants (-1)).
  - vm_compute. reflexivity.
  - lia.
Defined.

(** The ids of the three tenants are unique. *)
Example three_tenants_unique : NoDup (map user_id three_tenants).
Proof. apply (bool_decide_unpack _). vm_compute. exact I. Qed.

(** With three tenants and [top_n = -1] every tenant keeps one match. *)
Example negative_top_n_rows :
  exists rows,
    compute_top_matches default_config three_tenants (-1) = Ok rows /\
    map (fun r => (row_user_id r, match_rank r, match_user_id r)) rows
    = [(7, 1%nat, 9); (3, 1%nat, 7); (9, 1%nat, 7)].
Proof. eexists. split; vm_compute; reflexivity. Qed.

(** ** The short explanation *)

Example prettify_default_features :
  map prettify_feature_name (FEATURES default_config)
  = ["Cleanliness level"; "Noise tolerance"; "Sleep schedule";
     "Routine structure"; "Wfh frequency"; "Sociability level";
     "Guest tolerance"; "Privacy need"; "Conflict style";
     "Shared spaces usage"]%string.
Proof. reflexivity. Qed.




(** ** Tables with grades on the scale *)

Lemma existsb_same x (l : list float) :
  existsb (F.same x) l = true <-> x ∈ l.
Proof.
  rewrite existsb_exists. split.
  - intros (y & Hy & E). apply same_eq in E as ->. by apply list_elem_of_In.
  - intros H. exists x. split; [by apply list_elem_of_In|by apply same_eq].
Qed.

Lemma set_add_elem x y l : y ∈ set_add x l <-> y = x \/ y ∈ l.
Proof.
  unfold set_add. destruct (existsb (F.same x) l) eqn:E.
  - apply existsb_same in E. split; [auto|]. by intros [->|].
  - apply elem_of_cons.
Qed.

Lemma dedupe_elem x l : x ∈ dedupe l <-> x ∈ l.
Proof.
  induction l as [|y l IH]; cbn; [done|].
  rewrite set_add_elem, IH, elem_of_cons. done.
Qed.

Lemma reach_step_elem w R r s :
  r ∈ R -> s ∈ scale_scores -> F.add r (F.mul w s) ∈ reach_step w R.
Proof.
  intros Hr Hs. apply dedupe_elem, elem_of_flat_map. exists r. split; [done|].
  apply list_elem_of_fmap. by exists s.
Qed.

Lemma cell_on_scale_grade v :
  cell_on_scale default_config v = true ->
  exists z, to_float v = Ok (F.of_int z) /\ 1 <= z <= 5.
Proof.
  unfold cell_on_scale. destruct (to_float v) as [x|]; [|done].
  rewrite existsb_exists. intros (z & Hz & E).
  apply same_eq in E. subst x. exists z. split; [done|].
  change (scale_values default_config) with [1; 2; 3; 4; 5] in Hz.
  cbn in Hz. lia.
Qed.

Lemma on_scale_lookup p f :
  on_scale default_config p = true -> f ∈ FEATURES default_config ->
  exists v z,
    attrs p !! f = Some v /\ to_float v = Ok (F.of_int z) /\ 1 <= z <= 5.
Proof.
  unfold on_scale. rewrite forallb_forall. intros H Hf.
  apply list_elem_of_In, H in Hf.
  destruct (attrs p !! f) as [v|]; [|done].
  apply cell_on_scale_grade in Hf as (z & Hz). by exists v, z.
Qed.

Lemma on_scale_has_columns p :
  on_scale default_config p = true -> has_columns default_config p = true.
Proof.
  intros H. unfold has_columns. apply forallb_forall. intros f Hf.
  apply list_elem_of_In in Hf.
  destruct (on_scale_lookup p f H Hf) as (v & z & -> & Hz & _).
  unfold convertible. by rewrite Hz.
Qed.

Lemma on_scale_table_has_columns records :
  forallb (on_scale default_config) records = true ->
  forallb (has_columns default_config) records = true.
Proof.
  rewrite !forallb_forall. intros H p Hp. by apply on_scale_has_columns, H.
Qed.

Lemma similarity_on_scale a b :
  1 <= a <= 5 -> 1 <= b <= 5 ->
  exists s, similarity_score default_config (F.of_int a) (F.of_int b) = Ok s /\
    s ∈ scale_scores.
Proof.
  intros Ha Hb. scale_cases a; scale_cases b;
    (eexists; split; [vm_compute; reflexivity|apply existsb_same; reflexivity]).
Qed.

Lemma complementarity_on_scale a b :
  1 <= a <= 5 -> 1 <= b <= 5 ->
  exists s, complementarity_score default_config (F.of_int a) (F.of_int b) = Ok s /\
    s ∈ scale_scores.
Proof.
  intros Ha Hb. scale_cases a; scale_cases b;
    (eexists; split; [vm_compute; reflexivity|apply existsb_same; reflexivity]).
Qed.

Lemma feature_score_on_scale f a b :
  1 <= a <= 5 -> 1 <= b <= 5 ->
  exists s mode,
    feature_score default_config f (F.of_int a) (F.of_int b) = Ok (s, mode) /\
    s ∈ scale_scores.
Proof.
  intros Ha Hb. unfold feature_score. case_decide.
  - destruct (complementarity_on_scale a b Ha Hb) as (s & -> & Hs).
    by exists s, "complementarity"%string.
  - destruct (similarity_on_scale a b Ha Hb) as (s & -> & Hs).
    by exists s, "similarity"%string.
Qed.

Lemma feature_loop_reach a b fs R ws ds ws' ds' :
  on_scale default_config a = true -> on_scale default_config b = true ->
  (forall f, f ∈ fs -> f ∈ FEATURES default_config) ->
  ws ∈ R ->
  for_each (feature_step default_config a b) fs (ws, ds) = Ok (ws', ds') ->
  ws' ∈ reach fs R.
Proof.
  intros Ha Hb. revert R ws ds.
  induction fs as [|f fs IH]; intros R ws ds Hfs Hws; cbn [for_each].
  - by intros [= <- _].
  - destruct (on_scale_lookup a f Ha) as (ca & za & Hca & Hza & Hra);
      [apply Hfs; by left|].
    destruct (on_scale_lookup b f Hb) as (cb & zb & Hcb & Hzb & Hrb);
      [apply Hfs; by left|].
    rewrite (feature_step_cells default_config a b ws ds f ca cb _ _
               Hca Hza Hcb Hzb).
    destruct (feature_score_on_scale f za zb Hra Hrb) as (s & mode & -> & Hs).
    cbn. apply IH; [intros; apply Hfs; by right|].
    by apply reach_step_elem.
Qed.

Lemma score_pair_on_scale a b compat details :
  on_scale default_config a = true -> on_scale default_config b = true ->
  score_pair default_config a b = Ok (compat, details) ->
  compat ∈ reachable_percents.
Proof.
  intros Ha Hb H.
  apply score_pair_view in H as (ws & ds & E & _ & _ & _ & _ & -> & _).
  unfold reachable_percents, reachable_sums.
  apply dedupe_elem.
  apply (list_elem_of_fmap_2 percent_of_sum).
  refine (feature_loop_reach a b _ [F.zero] F.zero [] ws ds Ha Hb _ _ E).
  - intros f Hf. exact Hf.
  - left.
Qed.

Lemma scale_checks_true : scale_checks = true.
Proof. vm_compute. reflexivity. Qed.

Lemma reachable_percent_range x :
  x ∈ reachable_percents ->
  F.is_nan x = false /\
  F.leb F.zero (F.round2 x) = true /\ F.leb (F.round2 x) F.hundred = true.
Proof.
  intros Hx. pose proof scale_checks_true as H.
  unfold scale_checks in H. cbv zeta in H. apply andb_prop in H as [H _].
  rewrite forallb_forall in H.
  apply (list_elem_of_fmap_2 with_rounded), list_elem_of_In, H in Hx. clear H.
  cbn [with_rounded fst snd] in Hx.
  apply andb_prop in Hx as [Hx H3]. apply andb_prop in Hx as [H1 H2].
  apply negb_true_iff in H1. split; [exact H1|]. split; [exact H2|exact H3].
Qed.

Lemma reachable_percent_monotone x y :
  x ∈ reachable_percents -> y ∈ reachable_percents ->
  F.ltb x y = false -> F.leb (F.round2 y) (F.round2 x) = true.
Proof.
  intros Hx Hy Hlt. pose proof scale_checks_true as H.
  unfold scale_checks in H. cbv zeta in H. apply andb_prop in H as [_ H].
  rewrite forallb_forall in H.
  apply (list_elem_of_fmap_2 with_rounded), list_elem_of_In in Hx, Hy.
  specialize (H _ Hx). rewrite forallb_forall in H.
  specialize (H _ Hy). clear Hx Hy. cbn [with_rounded fst snd] in H.
  rewrite Hlt in H. exact H.
Qed.

(** ** The percentage *)






Lemma on_scale_in records p :
  forallb (on_scale default_config) records = true -> p ∈ records ->
  on_scale default_config p = true.
Proof.
  rewrite forallb_forall. intros H Hp. by apply H, list_elem_of_In.
Qed.

(** The rows of a table with grades on the scale carry percentages from 0
    to 100. *)
Lemma on_scale_rows_range records top_n row :
  forallb (on_scale default_config) records = true ->
  row ∈ flat_map (rows_of default_config records top_n) records ->
  F.leb F.zero (compatibility_score row) = true /\
  F.leb (compatibility_score row) F.hundred = true.
Proof.
  intros Hscale Hrow. apply elem_of_flat_map in Hrow as (a & Ha & Hrow).
  apply rows_of_elem in Hrow as (c & Hc & b & Hb & Hne & Hsc & _ & _ & Hcs & _).
  apply list_elem_of_lookup_2 in Hb. rewrite Hcs.
  apply reachable_percent_range.
  apply (score_pair_on_scale a b _ c.2);
    [by apply (on_scale_in records)|by apply (on_scale_in records)|exact Hsc].
Qed.



(** The percentages of the three tenants, as printed with two decimals. *)
Example three_tenants_percentages :
  exists rows,
    compute_top_matches default_config three_tenants 2 = Ok rows /\
    map (fun r => (row_user_id r, match_rank r, match_user_id r,
                   F.fmt2 (compatibility_score r))) rows
    = [(7, 1%nat, 9, "100.00"%string); (7, 2%nat, 3, "60.00"%string);
       (3, 1%nat, 7, "60.00"%string); (3, 2%nat, 9, "41.90"%string);
       (9, 1%nat, 7, "100.00"%string); (9, 2%nat, 3, "41.90"%string)].
Proof. eexists. split; vm_compute; reflexivity. Qed.

(** ** The ranking *)

Lemma StronglySorted_take {A : Type} (R : A -> A -> Prop) (k : nat) (l : list A) :
  StronglySorted R l -> StronglySorted R (take k l).
Proof.
  intros H. rewrite <- (take_drop k l) in H.
  by apply StronglySorted_app_1_l in H.
Qed.

Lemma candidates_indices cfg records a (start : nat) :
  (forall b, b ∈ records ->
     exists compat details, score_pair cfg a b = Ok (compat, details)) ->
  map (fun c : candidate => c.1.1)
    (flat_map (candidate_of cfg a) (enumerate start records))
  = map fst (filter (fun jb : nat * profile => user_id a <> user_id jb.2)
               (enumerate start records)).
Proof.
  revert start. induction records as [|b l IH]; intros start H; [done|].
  cbn [enumerate flat_map]. rewrite map_app, IH by (intros; apply H; by right).
  rewrite filter_cons. unfold candidate_of. cbn [snd].
  destruct (H b) as (c & d & ->); [by left|].
  destruct (decide (user_id a = user_id b)), (decide (user_id a <> user_id b));
    cbn; done.
Qed.

(** Rows rendering candidates in descending order of their percentage carry
    rounded percentages in descending order. *)
Lemma rendered_rows_sorted records a (cs : list candidate) rows :
  (forall c, c ∈ cs -> c.1.2 ∈ reachable_percents) ->
  StronglySorted (not_below compat_of) cs ->
  Forall2 (renders default_config records a) cs rows ->
  StronglySorted
    (fun r1 r2 => F.leb (compatibility_score r2) (compatibility_score r1) = true)
    rows.
Proof.
  intros Hreach Hsorted Hren. revert Hreach Hsorted.
  induction Hren as [|c row cs rows Hc Hren IH]; intros Hreach Hsorted;
    [constructor|].
  apply StronglySorted_cons in Hsorted as [Hhead Hsorted].
  constructor.
  - apply IH; [|done]. intros; apply Hreach; by right.
  - eapply Forall2_Forall_r; [exact Hren|].
    rewrite Forall_forall in Hhead. apply Forall_forall.
    intros c' Hc' row' Hrow'.
    destruct Hc as (b & _ & _ & _ & _ & _ & -> & _).
    destruct Hrow' as (b' & _ & _ & _ & _ & _ & -> & _).
    apply reachable_percent_monotone;
      [apply Hreach; by left|apply Hreach; by right|].
    by apply Hhead.
Qed.

(** C2: for tenants with grades on the scale, the rows of a tenant render a
    prefix of the full ordering of all its candidates (the records with
    another [user_id]) by descending percentage, [match_rank] runs 1..k along
    that prefix, and the emitted percentages are non-increasing. *)
Theorem ranking_sorted_prefix (records : list profile) (top_n : Z) :
  forallb (on_scale default_config) records = true ->
  exists rows,
    compute_top_matches default_config records top_n = Ok rows /\
    rows = flat_map (rows_of default_config records top_n) records /\
    forall a, a ∈ records ->
      let full := ranking default_config records a in
      let block := rows_of default_config records top_n a in
      full ≡ₚ candidates_of default_config records a /\
      map (fun c : candidate => c.1.1) (candidates_of default_config records a)
        = map fst (filter (fun jb : nat * profile => user_id a <> user_id jb.2)
                     (enumerate 0 records)) /\
      StronglySorted (not_below compat_of) full /\
      (exists k, Forall2 (renders default_config records a) (take k full) block) /\
      map match_rank block = seq 1 (length block) /\
      StronglySorted
        (fun r1 r2 =>
           F.leb (compatibility_score r2) (compatibility_score r1) = true)
        block.
Proof.
  intros Hscale.
  pose proof (on_scale_table_has_columns _ Hscale) as Hcols.
  pose proof (columns_scorable _ _ default_total_weight_nonzero Hcols) as Hs.
  eexists. split; [by apply compute_top_matches_rows|]. split; [done|].
  intros a Ha full block.
  assert (forall c, c ∈ candidates_of default_config records a ->
            c.1.2 ∈ reachable_percents) as Hreach.
  { intros c Hc. apply candidates_of_elem in Hc as (b & Hb & _ & Hsc).
    apply list_elem_of_lookup_2 in Hb.
    apply (score_pair_on_scale a b _ c.2);
      [by apply (on_scale_in records)|by apply (on_scale_in records)|exact Hsc]. }
  assert (StronglySorted (not_below compat_of) full) as Hsorted.
  { apply sort_desc_sorted, Forall_forall. intros c Hc.
    by apply reachable_percent_range, Hreach. }
  destruct (rows_of_view default_config records top_n a) as [Hv Hr].
  cbn zeta in Hv, Hr. fold full block in Hv, Hr.
  destruct (slice_to_prefix full top_n) as [k Hk].
  split; [apply sort_desc_perm|].
  split; [apply candidates_indices; intros; by apply Hs|].
  split; [done|].
  split; [exists k; by rewrite <- Hk|].
  split.
  - rewrite Hr. f_equal. by apply Forall2_length in Hv.
  - apply (rendered_rows_sorted records a (slice_to full top_n)); [| |done].
    + intros c Hc. by apply Hreach, ranking_elem, (slice_to_elem _ top_n).
    + rewrite Hk. by apply StronglySorted_take.
Qed.

Lemma ranking_sorted_prefix_witness :
  exists rows,
    compute_top_matches default_config three_tenants 2 = Ok rows /\
    rows = flat_map (rows_of default_config three_tenants 2) three_tenants /\
    forall a, a ∈ three_tenants ->
      let full := ranking default_config three_tenants a in
      let block := rows_of default_config three_tenants 2 a in
      full ≡ₚ candidates_of default_config three_tenants a /\
      map (fun c : candidate => c.1.1)
        (candidates_of default_config three_tenants a)
        = map fst (filter (fun jb : nat * profile => user_id a <> user_id jb.2)
                     (enumerate 0 three_tenants)) /\
      StronglySorted (not_below compat_of) full /\
      (exists k,
         Forall2 (renders default_config three_tenants a) (take k full) block) /\
      map match_rank block = seq 1 (length block) /\
      StronglySorted
        (fun r1 r2 =>
           F.leb (compatibility_score r2) (compatibility_score r1) = true)
        block.
Proof.
  apply (ranking_sorted_prefix three_tenants 2).
  vm_compute. reflexivity.
Defined.

(** The scenario of the specification: one attribute [x] of weight 1.0 in
    similarity mode and the tenants A (1), B (3) and C (5); A matches B with
    50 % and then C with 0 %. *)
Example one_attribute_scenario :
  let cfg := {| FEATURES := ["x"%string];
                WEIGHTS := {[ "x"%string := F.lit 1 1 ]};
                SCORING_MODE := {[ "x"%string := "similarity"%string ]};
                SCALE_MIN := 1;
                SCALE_MAX := 5 |} in
  let table := [with_cells 1 "A" [("x"%string, CInt 1)];
                with_cells 2 "B" [("x"%string, CInt 3)];
                with_cells 3 "C" [("x"%string, CInt 5)]] in
  exists rows,
    compute_top_matches cfg table 2 = Ok rows /\
    map (fun r => (row_tenant_label r, match_rank r, match_tenant_label r,
                   F.fmt2 (compatibility_score r))) (take 2 rows)
    = [("A"%string, 1%nat, "B"%string, "50.00"%string);
       ("A"%string, 2%nat, "C"%string, "0.00"%string)].
Proof. eexists. split; vm_compute; reflexivity. Qed.

(** ** Tenant labels *)

Lemma digit_value_char d : (d < 10)%N -> digit_value (pretty_N_char d) = d.
Proof.
  intros H.
  assert (d = 0 \/ d = 1 \/ d = 2 \/ d = 3 \/ d = 4 \/ d = 5 \/ d = 6 \/ d = 7
          \/ d = 8 \/ d = 9)%N as Hd by lia.
  destruct Hd as [->|[->|[->|[->|[->|[->|[->|[->|[->| ->]]]]]]]]]; reflexivity.
Qed.

Lemma digits_value_go x s acc :
  exists k, digits_value acc (pretty_N_go x s)
            = digits_value (acc * 10 ^ k + x)%N s.
Proof.
  revert s. induction (N.lt_wf_0 x) as [x _ IH]; intros s.
  destruct (decide (x = 0%N)) as [->|Hx].
  - exists 0%N. rewrite pretty_N_go_0. f_equal. cbn. lia.
  - rewrite pretty_N_go_step by lia.
    destruct (IH (x `div` 10)%N) with (s := String (pretty_N_char (x `mod` 10)) s)
      as [k Hk]; [apply N.div_lt; lia|].
    exists (k + 1)%N. rewrite Hk. cbn [digits_value]. f_equal.
    rewrite digit_value_char by (apply N.mod_lt; lia).
    rewrite N.pow_add_r, N.pow_1_r.
    pose proof (N.div_mod x 10). lia.
Qed.

Lemma digits_value_pretty (n : N) : digits_value 0 (pretty n) = n.
Proof.
  unfold pretty, pretty_N. case_decide as Hn; [by subst|].
  destruct (digits_value_go n EmptyString 0) as [k ->]. cbn. lia.
Qed.

Lemma digits_value_zeros k s : digits_value 0 (zeros k +:+ s) = digits_value 0 s.
Proof. induction k as [|k IH]; [done|]. cbn. exact IH. Qed.

Lemma pretty_N_no_dash (n : N) s : pretty n <> String "-"%char s.
Proof.
  unfold pretty, pretty_N. case_decide; [done|].
  by apply (pretty_N_go_ne_dash n EmptyString s).
Qed.

Lemma int_of_numeral_unsigned k (n : N) :
  int_of_numeral (zeros k +:+ pretty n) = Z.of_N n.
Proof.
  assert (forall s, zeros k +:+ pretty n <> String "-"%char s) as Hd.
  { destruct k; [apply pretty_N_no_dash|done]. }
  unfold int_of_numeral.
  destruct (zeros k +:+ pretty n) as [|c r] eqn:E.
  - rewrite <- E, digits_value_zeros, digits_value_pretty. done.
  - destruct (Ascii.eqb_spec c "-"%char) as [->|Hc].
    + by destruct (Hd r).
    + transitivity (Z.of_N (digits_value 0 (String c r))).
      { destruct c as [[] [] [] [] [] [] [] []]; try reflexivity. by destruct Hc. }
      by rewrite <- E, digits_value_zeros, digits_value_pretty.
Qed.

Lemma dash_app (s : string) : "-" +:+ s = String "-"%char s.
Proof. reflexivity. Qed.

Lemma empty_app (s : string) : EmptyString +:+ s = s.
Proof. reflexivity. Qed.

(** Reading a formatted id back gives the id. *)
Lemma int_of_numeral_fmt_03d z : int_of_numeral (fmt_03d z) = z.
Proof.
  unfold fmt_03d. destruct (z <? 0) eqn:E.
  - apply Z.ltb_lt in E. rewrite dash_app.
    unfold int_of_numeral.
    rewrite digits_value_zeros, digits_value_pretty. lia.
  - apply Z.ltb_ge in E. rewrite empty_app.
    rewrite int_of_numeral_unsigned. lia.
Qed.

Lemma pretty_go_length k x s :
  (x < 10 ^ N.of_nat k)%N ->
  (String.length (pretty_N_go x s) <= String.length s + k)%nat.
Proof.
  revert x s. induction k as [|k IH]; intros x s Hx.
  - assert (x = 0%N) as -> by (cbn in Hx; lia). rewrite pretty_N_go_0. lia.
  - destruct (decide (x = 0%N)) as [->|Hx0]; [rewrite pretty_N_go_0; lia|].
    rewrite pretty_N_go_step by lia.
    etransitivity; [apply IH|cbn; lia].
    rewrite Nat2N.inj_succ, N.pow_succ_r' in Hx.
    apply N.Div0.div_lt_upper_bound. lia.
Qed.

Lemma zeros_length k : String.length (zeros k) = k.
Proof. induction k; cbn; auto. Qed.

Lemma string_app_length (s t : string) :
  String.length (s +:+ t) = (String.length s + String.length t)%nat.
Proof. induction s as [|c s IH]; simpl; [done|by rewrite IH]. Qed.

Lemma pretty_N_length_pos (n : N) : (1 <= String.length (pretty n))%nat.
Proof.
  unfold pretty, pretty_N. case_decide as Hn; [cbn; lia|].
  rewrite pretty_N_go_step by lia.
  assert (forall x s, (String.length s <= String.length (pretty_N_go x s))%nat) as H.
  { intros x. induction (N.lt_wf_0 x) as [x _ IH]; intros s.
    destruct (decide (x = 0%N)) as [->|Hx]; [by rewrite pretty_N_go_0|].
    rewrite pretty_N_go_step by lia.
    etransitivity; [|apply IH, N.div_lt; lia]. cbn. lia. }
  etransitivity; [|apply H]. cbn. lia.
Qed.

Lemma make_tenant_label_inj (i j : Z) :
  make_tenant_label i = make_tenant_label j -> i = j.
Proof.
  unfold make_tenant_label. intros [= H].
  change (fmt_03d i = fmt_03d j) in H.
  by rewrite <- (int_of_numeral_fmt_03d i), <- (int_of_numeral_fmt_03d j), H.
Qed.

(** X1: distinct ids get distinct labels (the label can be read back), and an
    id from 0 to 999 gets "Tenant_" followed by exactly three digits. *)
Theorem make_tenant_label_distinct (i j : Z) :
  i <> j ->
  make_tenant_label i <> make_tenant_label j /\
  int_of_numeral (fmt_03d i) = i /\
  (0 <= i <= 999 -> String.length (make_tenant_label i) = 10%nat).
Proof.
  intros Hij. split; [|split].
  - intros H. by apply Hij, make_tenant_label_inj.
  - apply int_of_numeral_fmt_03d.
  - intros Hi. unfold make_tenant_label, fmt_03d.
    replace (i <? 0) with false by (symmetry; apply Z.ltb_ge; lia).
    cbv beta iota zeta.
    rewrite !string_app_length, zeros_length.
    change (String.length "Tenant_") with 7%nat.
    change (String.length EmptyString) with 0%nat.
    pose proof (pretty_N_length_pos (Z.abs_N i)).
    assert (String.length (pretty (Z.abs_N i)) <= 3)%nat; [|lia].
    unfold pretty, pretty_N. case_decide; [cbn; lia|].
    apply (pretty_go_length 3). cbn. lia.
Qed.

Lemma make_tenant_label_distinct_witness :
  make_tenant_label 7 <> make_tenant_label 70 /\
  int_of_numeral (fmt_03d 7) = 7 /\
  (0 <= 7 <= 999 -> String.length (make_tenant_label 7) = 10%nat).
Proof. apply (make_tenant_label_distinct 7 70). lia. Defined.

Example make_tenant_label_values :
  map make_tenant_label [0; 7; 42; 300; 1234; -5]
  = ["Tenant_000"; "Tenant_007"; "Tenant_042"; "Tenant_300"; "Tenant_1234";
     "Tenant_-05"]%string.
Proof. reflexivity. Qed.

(** ** Attribute labels *)

Lemma upper_not_underscore c : upper c = "_"%char -> c = "_"%char.
Proof. destruct c as [[] [] [] [] [] [] [] []]; vm_compute; congruence. Qed.

Lemma lower_not_underscore c : lower c = "_"%char -> c = "_"%char.
Proof. destruct c as [[] [] [] [] [] [] [] []]; vm_compute; congruence. Qed.

Lemma upper_idempotent c : upper (upper c) = upper c.
Proof. destruct c as [[] [] [] [] [] [] [] []]; reflexivity. Qed.

Lemma lower_idempotent c : lower (lower c) = lower c.
Proof. destruct c as [[] [] [] [] [] [] [] []]; reflexivity. Qed.

Lemma lower_all_idempotent s : lower_all (lower_all s) = lower_all s.
Proof.
  induction s as [|c s IH]; simpl; [done|]. by rewrite lower_idempotent, IH.
Qed.

Lemma capitalize_idempotent s : capitalize (capitalize s) = capitalize s.
Proof.
  destruct s as [|c s]; simpl; [done|].
  by rewrite upper_idempotent, lower_all_idempotent.
Qed.

Lemma replace_char_clean s :
  "_"%char ∉ list_ascii_of_string (replace_char "_" " " s).
Proof.
  induction s as [|c s IH]; simpl; [apply not_elem_of_nil|].
  apply not_elem_of_cons. split; [|done].
  by destruct (Ascii.eqb_spec c "_"%char).
Qed.

Lemma lower_all_clean s :
  ("_"%char ∉ list_ascii_of_string s) ->
  "_"%char ∉ list_ascii_of_string (lower_all s).
Proof.
  induction s as [|c s IH]; simpl; [done|].
  rewrite !not_elem_of_cons. intros [Hc Hs]. split; [|by apply IH].
  intros E. apply Hc. symmetry. by apply lower_not_underscore.
Qed.

Lemma capitalize_clean s :
  ("_"%char ∉ list_ascii_of_string s) ->
  "_"%char ∉ list_ascii_of_string (capitalize s).
Proof.
  destruct s as [|c s]; simpl; [done|].
  rewrite !not_elem_of_cons. intros [Hc Hs]. split; [|by apply lower_all_clean].
  intros E. apply Hc. symmetry. by apply upper_not_underscore.
Qed.

Lemma replace_char_id s :
  ("_"%char ∉ list_ascii_of_string s) -> replace_char "_" " " s = s.
Proof.
  induction s as [|c s IH]; simpl; [done|].
  rewrite not_elem_of_cons. intros [Hc Hs]. rewrite IH by done.
  destruct (Ascii.eqb_spec c "_"%char); congruence.
Qed.

Lemma replace_char_length old new s :
  String.length (replace_char old new s) = String.length s.
Proof. induction s as [|c s IH]; simpl; [done|by rewrite IH]. Qed.

Lemma lower_all_length s : String.length (lower_all s) = String.length s.
Proof. induction s as [|c s IH]; simpl; [done|by rewrite IH]. Qed.

Lemma upper_ascii c : is_ascii c = true -> is_ascii (upper c) = true.
Proof. destruct c as [[] [] [] [] [] [] [] []]; vm_compute; congruence. Qed.

Lemma lower_ascii c : is_ascii c = true -> is_ascii (lower c) = true.
Proof. destruct c as [[] [] [] [] [] [] [] []]; vm_compute; congruence. Qed.

Lemma replace_char_ascii s :
  ascii_text s = true -> ascii_text (replace_char "_" " " s) = true.
Proof.
  unfold ascii_text. induction s as [|c s IH]; simpl; [done|].
  rewrite !andb_true_iff. intros [Hc Hs]. split; [|by apply IH].
  by destruct (Ascii.eqb c "_").
Qed.

Lemma lower_all_ascii s : ascii_text s = true -> ascii_text (lower_all s) = true.
Proof.
  unfold ascii_text. induction s as [|c s IH]; simpl; [done|].
  rewrite !andb_true_iff. intros [Hc Hs]. split; [by apply lower_ascii|by apply IH].
Qed.

Lemma capitalize_ascii s : ascii_text s = true -> ascii_text (capitalize s) = true.
Proof.
  destruct s as [|c s]; [done|]. unfold ascii_text. simpl.
  rewrite !andb_true_iff. intros [Hc Hs].
  split; [by apply upper_ascii|by apply lower_all_ascii].
Qed.

(** X2: for an ASCII attribute name the prettified name is ASCII, contains
    no underscore, has the length of the name, and prettifying it again
    changes nothing. *)
Theorem prettify_feature_name_shape (f : string) :
  ascii_text f = true ->
  ascii_text (prettify_feature_name f) = true /\
  ("_"%char ∉ list_ascii_of_string (prettify_feature_name f)) /\
  String.length (prettify_feature_name f) = String.length f /\
  prettify_feature_name (prettify_feature_name f) = prettify_feature_name f.
Proof.
  intros Hascii. unfold prettify_feature_name. split; [|split; [|split]].
  - by apply capitalize_ascii, replace_char_ascii.
  - apply capitalize_clean, replace_char_clean.
  - destruct (replace_char "_" " " f) as [|c s] eqn:E.
    + by rewrite <- (replace_char_length "_" " " f), E.
    + simpl. rewrite lower_all_length.
      by rewrite <- (replace_char_length "_" " " f), E.
  - rewrite (replace_char_id (capitalize _))
      by apply capitalize_clean, replace_char_clean.
    apply capitalize_idempotent.
Qed.

Lemma prettify_feature_name_shape_witness :
  ascii_text (prettify_feature_name "WFH_frequency") = true /\
  ("_"%char ∉ list_ascii_of_string (prettify_feature_name "WFH_frequency")) /\
  String.length (prettify_feature_name "WFH_frequency")
    = String.length "WFH_frequency" /\
  prettify_feature_name (prettify_feature_name "WFH_frequency")
    = prettify_feature_name "WFH_frequency".
Proof. apply (prettify_feature_name_shape "WFH_frequency"). reflexivity. Defined.

(** ** Clamping and NaN *)

(** X3: [clamp01] returns its argument or one of the two bounds, and
    clamping twice is clamping once. *)
Theorem clamp01_idempotent (x : float) :
  (clamp01 x = F.zero \/ clamp01 x = F.one \/ clamp01 x = x) /\
  clamp01 (clamp01 x) = clamp01 x.
Proof.
  destruct (clamp01_cases x) as [H|[H|(H & H0 & H1)]].
  - split; [by left|]. by rewrite H.
  - split; [by right; left|]. by rewrite H.
  - split; [by right; right|]. rewrite H. exact H.
Qed.

Lemma clamp01_nan : clamp01 S754_nan = F.one.
Proof. reflexivity. Qed.

(** X4: a NaN value scores 1.0 against any value, in both modes and on
    either side: the comparisons of [min] and [max] with NaN are false, so
    [clamp01] turns NaN into its upper bound. *)
Theorem nan_scores_one (cfg : config) (f : string) (x : float) :
  similarity_score cfg S754_nan x = Ok F.one /\
  similarity_score cfg x S754_nan = Ok F.one /\
  complementarity_score cfg S754_nan x = Ok F.one /\
  complementarity_score cfg x S754_nan = Ok F.one /\
  exists mode, feature_score cfg f S754_nan x = Ok (F.one, mode) /\
               feature_score cfg f x S754_nan = Ok (F.one, mode).
Proof.
  assert (similarity_score cfg S754_nan x = Ok F.one) as H1.
  { unfold similarity_score. destruct (F.leb _ _) eqn:E; [done|].
    by rewrite (truediv_guarded _ _ E). }
  assert (complementarity_score cfg S754_nan x = Ok F.one) as H2.
  { unfold complementarity_score. destruct (F.leb _ _) eqn:E; [done|].
    by rewrite (truediv_guarded _ _ E). }
  assert (similarity_score cfg x S754_nan = Ok F.one) as H3
    by (by rewrite similarity_score_sym).
  assert (complementarity_score cfg x S754_nan = Ok F.one) as H4
    by (by rewrite complementarity_score_sym).
  do 4 (split; [done|]).
  unfold feature_score. case_decide.
  - exists "complementarity"%string. by rewrite H2, H4.
  - exists "similarity"%string. by rewrite H1, H3.
Qed.

(** A tenant whose cells are all NaN matches the first of the three tenants
    with 100 %. *)
Example nan_tenant_percentage :
  let nan_tenant :=
    {| user_id := 99; tenant_label := "Tenant_099";
       attrs := list_to_map (zip (FEATURES default_config)
                               (replicate 10 (CFloat S754_nan))) |} in
  exists rows,
    compute_top_matches default_config (nan_tenant :: take 1 three_tenants) 5
    = Ok rows /\
    map (fun r => (row_user_id r, match_user_id r,
                   F.fmt2 (compatibility_score r))) rows
    = [(99, 7, "100.00"%string); (7, 99, "100.00"%string)].
Proof. eexists. split; vm_compute; reflexivity. Qed.

(** ** Errors of [compute_top_matches] *)

Lemma for_each_raise {A S : Type} (body : S -> A -> result S) (xs : list A)
    (s : S) (e : exn) :
  for_each body xs s = Raise e ->
  exists x s', x ∈ xs /\ body s' x = Raise e.
Proof.
  revert s. induction xs as [|x xs IH]; intros s; cbn; [done|].
  destruct (body s x) as [s1|e1] eqn:E; cbn.
  - intros H. apply IH in H as (y & s' & Hy & H). exists y, s'. split; [by right|done].
  - intros [= <-]. exists x, s. split; [by left|done].
Qed.

Lemma for_each_ok_inv {A S : Type} (body : S -> A -> result S) (xs : list A)
    (s s' : S) :
  for_each body xs s = Ok s' ->
  forall x, x ∈ xs -> exists s1 s2, body s1 x = Ok s2.
Proof.
  revert s. induction xs as [|x xs IH]; intros s; cbn.
  - intros _ y Hy. by apply elem_of_nil in Hy.
  - destruct (body s x) as [s1|e1] eqn:E; cbn; [|done].
    intros H y Hy. apply elem_of_cons in Hy as [->|Hy]; [by eauto|].
    by eapply IH.
Qed.

Lemma enumerate_lookup_elem {A : Type} (start j : nat) (x : A) (xs : list A) :
  xs !! j = Some x -> ((start + j)%nat, x) ∈ enumerate start xs.
Proof.
  revert start j. induction xs as [|y xs IH]; intros start j Hj; [done|].
  destruct j as [|j]; cbn in *.
  - injection Hj as ->. rewrite Nat.add_0_r. by left.
  - right. replace (start + S j)%nat with (S start + j)%nat by lia. by apply IH.
Qed.

Section ErrorFacts.
Context (cfg : config).

(** One turn of the loop over the attributes raises for a missing column or
    for an int that [float] refuses. *)
Lemma feature_step_raise a b st f e :
  feature_step cfg a b st f = Raise e ->
  (e = KeyError f /\ (attrs a !! f = None \/ attrs b !! f = None)) \/
  (e = OverflowError /\
   exists z, 2 ^ 1024 - 2 ^ 970 <= Z.abs z /\
     (attrs a !! f = Some (CInt z) \/ attrs b !! f = Some (CInt z))).
Proof.
  unfold feature_step, get_attr. destruct st as [ws ds].
  destruct (attrs a !! f) as [ca|]; cbn; [|intros [= <-]; auto].
  destruct (to_float ca) as [av|ea] eqn:Ea; cbn.
  2:{ intros [= <-]. apply to_float_raise in Ea as (-> & z & -> & Hz).
      right. split; [done|]. exists z. auto. }
  destruct (attrs b !! f) as [cb|]; cbn; [|intros [= <-]; auto].
  destruct (to_float cb) as [bv|eb] eqn:Eb; cbn.
  2:{ intros [= <-]. apply to_float_raise in Eb as (-> & z & -> & Hz).
      right. split; [done|]. exists z. auto. }
  destruct (feature_score_total cfg f av bv) as (v & mode & -> & _). done.
Qed.

Lemma score_pair_raise a b e :
  score_pair cfg a b = Raise e ->
  (exists f, f ∈ FEATURES cfg /\ e = KeyError f /\
             (attrs a !! f = None \/ attrs b !! f = None)) \/
  (exists f z, f ∈ FEATURES cfg /\ e = OverflowError /\
               2 ^ 1024 - 2 ^ 970 <= Z.abs z /\
               (attrs a !! f = Some (CInt z) \/ attrs b !! f = Some (CInt z))) \/
  (e = ZeroDivisionError /\ F.is_zero (total_weight cfg) = true).
Proof.
  unfold score_pair.
  destruct (for_each _ _ _) as [[ws ds]|e'] eqn:E; cbn.
  - unfold truediv. destruct (F.is_zero (total_weight cfg)); cbn; [|done].
    intros [= <-]. by right; right.
  - intros [= <-].
    apply for_each_raise in E as (f & st & Hf & E).
    apply feature_step_raise in E as [[-> E]|(-> & z & Hz & E)].
    + left. by exists f.
    + right; left. by exists f, z.
Qed.

Lemma score_pair_ok_columns a b compat details :
  score_pair cfg a b = Ok (compat, details) ->
  has_columns cfg a = true /\ has_columns cfg b = true.
Proof.
  intros H. apply score_pair_view in H as (ws & ds & _ & Hf & Hc & _).
  rewrite Forall_forall in Hc.
  assert (forall f, f ∈ FEATURES cfg ->
            (exists ca av, attrs a !! f = Some ca /\ to_float ca = Ok av) /\
            (exists cb bv, attrs b !! f = Some cb /\ to_float cb = Ok bv)) as Hall.
  { intros f Hf'. rewrite <- Hf in Hf'.
    apply list_elem_of_fmap in Hf' as (d & -> & Hd).
    destruct (Hc d Hd) as (ca & cb & av & bv & Hca & Hav & Hcb & Hbv & _).
    split; [by exists ca, av|by exists cb, bv]. }
  unfold has_columns, convertible.
  split; apply forallb_forall; intros f Hf';
    apply list_elem_of_In, Hall
      in Hf' as [(ca & av & Hca & Hav) (cb & bv & Hcb & Hbv)];
    [by rewrite Hca, Hav|by rewrite Hcb, Hbv].
Qed.

Lemma candidate_step_ok a s jb s' :
  candidate_step cfg a s jb = Ok s' -> s' = s ++ candidate_of cfg a jb.
Proof.
  destruct jb as [j b]. unfold candidate_step, candidate_of.
  destruct (decide (user_id a = user_id b)).
  - intros [= <-]. by rewrite app_nil_r.
  - destruct (score_pair cfg a b) as [[compat details]|]; cbn; [|done].
    by intros [= <-].
Qed.

Lemma candidates_loop_ok a (jbs : list (nat * profile)) s s' :
  for_each (candidate_step cfg a) jbs s = Ok s' ->
  s' = s ++ flat_map (candidate_of cfg a) jbs.
Proof.
  revert s. induction jbs as [|jb jbs IH]; intros s; cbn [for_each flat_map].
  - intros [= <-]. by rewrite app_nil_r.
  - destruct (candidate_step cfg a s jb) as [s1|] eqn:E; cbn; [|done].
    apply candidate_step_ok in E. subst s1.
    intros H. apply IH in H. by rewrite H, <- (assoc_L (++)).
Qed.

(** One turn of the loop over the tenants: the candidates raise, or the rows
    of the tenant are appended. *)
Lemma tenant_step_cases records top_n s a :
  (exists e,
     for_each (candidate_step cfg a) (enumerate 0 records) [] = Raise e /\
     tenant_step cfg records top_n s a = Raise e) \/
  ((exists cands,
      for_each (candidate_step cfg a) (enumerate 0 records) [] = Ok cands) /\
   tenant_step cfg records top_n s a = Ok (s ++ rows_of cfg records top_n a)).
Proof.
  unfold tenant_step.
  destruct (for_each (candidate_step cfg a) _ _) as [cands|e] eqn:E; cbn.
  - right. split; [by eexists|].
    apply candidates_loop_ok in E. cbn in E. subst cands.
    apply for_each_appends. intros [rank c] s' Hc.
    apply (row_step_appends cfg).
    apply enumerate_elem in Hc as [_ Hc]. apply list_elem_of_lookup_2 in Hc.
    by apply ranking_elem, (slice_to_elem _ top_n).
  - left. by exists e.
Qed.

Lemma candidate_step_raise a s j b e :
  candidate_step cfg a s (j, b) = Raise e ->
  user_id a <> user_id b /\ score_pair cfg a b = Raise e.
Proof.
  unfold candidate_step.
  destruct (decide (user_id a = user_id b)); [discriminate|].
  destruct (score_pair cfg a b) as [[compat details]|e']; cbn; [discriminate|].
  by intros [= <-].
Qed.

Lemma candidates_loop_raise records a e :
  for_each (candidate_step cfg a) (enumerate 0 records) [] = Raise e ->
  exists b, b ∈ records /\ user_id a <> user_id b /\
            score_pair cfg a b = Raise e.
Proof.
  intros H. apply for_each_raise in H as ([j b] & s & Hjb & H).
  apply enumerate_elem in Hjb as [_ Hjb]. apply list_elem_of_lookup_2 in Hjb.
  apply candidate_step_raise in H as [Hne H]. by exists b.
Qed.

Lemma candidates_loop_pairs records a cands b :
  for_each (candidate_step cfg a) (enumerate 0 records) [] = Ok cands ->
  b ∈ records -> user_id a <> user_id b ->
  exists compat details, score_pair cfg a b = Ok (compat, details).
Proof.
  intros H Hb Hne. apply list_elem_of_lookup in Hb as [j Hj].
  pose proof (enumerate_lookup_elem 0 j b records Hj) as Hjb. cbn in Hjb.
  destruct (for_each_ok_inv _ _ _ _ H _ Hjb) as (s1 & s2 & Hstep).
  destruct (score_pair cfg a b) as [[compat details]|e] eqn:E; [by eexists _, _|].
  exfalso. unfold candidate_step in Hstep. rewrite E in Hstep.
  by destruct (decide (user_id a = user_id b)).
Qed.

(** The rows of all tenants, or the error of the first tenant whose
    candidates cannot be scored. *)
Lemma compute_top_matches_cases records top_n :
  compute_top_matches cfg records top_n
    = Ok (flat_map (rows_of cfg records top_n) records) \/
  exists e a b,
    a ∈ records /\ b ∈ records /\ user_id a <> user_id b /\
    score_pair cfg a b = Raise e /\
    compute_top_matches cfg records top_n = Raise e.
Proof.
  unfold compute_top_matches.
  assert (forall (l : list profile) s,
    (forall a, a ∈ l -> a ∈ records) ->
    for_each (tenant_step cfg records top_n) l s
      = Ok (s ++ flat_map (rows_of cfg records top_n) l) \/
    exists e a b,
      a ∈ records /\ b ∈ records /\ user_id a <> user_id b /\
      score_pair cfg a b = Raise e /\
      for_each (tenant_step cfg records top_n) l s = Raise e) as H.
  { induction l as [|a l IH]; intros s Hl; cbn [for_each flat_map].
    - left. by rewrite app_nil_r.
    - destruct (tenant_step_cases records top_n s a) as [(e & Hc & ->)|[_ ->]]; cbn.
      + right. apply candidates_loop_raise in Hc as (b & Hb & Hne & Hsc).
        exists e, a, b. split; [apply Hl; by left|done].
      + destruct (IH (s ++ rows_of cfg records top_n a)) as [->|H];
          [intros; apply Hl; by right| |by right].
        left. by rewrite <- (assoc_L (++)). }
  apply (H records []). done.
Qed.

End ErrorFacts.

(** X5: on a table that has the columns [user_id] and [tenant_label],
    [compute_top_matches] raises only a [KeyError] for a configured
    attribute that some record lacks, an [OverflowError] for an int cell of a
    configured attribute too large for a float, or [ZeroDivisionError] when
    the weights sum to zero; looking a match up by position never fails.
    The weights are such that the sum of CPython 3.12 and later is the one
    of the earlier versions. *)
Theorem compute_top_matches_errors (cfg : config) (records : list profile)
    (top_n : Z) (e : exn) :
  F.py_sum_compensated (map (weight_of cfg) (FEATURES cfg)) = total_weight cfg ->
  compute_top_matches cfg records top_n = Raise e ->
  (exists f p, f ∈ FEATURES cfg /\ p ∈ records /\ attrs p !! f = None /\
               e = KeyError f) \/
  (exists f p z, f ∈ FEATURES cfg /\ p ∈ records /\
                 attrs p !! f = Some (CInt z) /\
                 2 ^ 1024 - 2 ^ 970 <= Z.abs z /\ e = OverflowError) \/
  (e = ZeroDivisionError /\ F.is_zero (total_weight cfg) = true).
Proof.
  intros _ H.
  destruct (compute_top_matches_cases cfg records top_n)
    as [H'|(e' & a & b & Ha & Hb & _ & Hsc & H')]; [congruence|].
  assert (e' = e) as -> by congruence.
  apply score_pair_raise in Hsc
    as [(f & Hf & -> & [Hm|Hm])|[(f & z & Hf & -> & Hz & [Hm|Hm])|Hz]].
  - left. by exists f, a.
  - left. by exists f, b.
  - right; left. by exists f, a, z.
  - right; left. by exists f, b, z.
  - by right; right.
Qed.

Lemma compute_top_matches_errors_witness :
  (exists f p, f ∈ FEATURES default_config /\ p ∈ two_attribute_tenants /\
               attrs p !! f = None /\
               KeyError "cleanliness_level" = KeyError f) \/
  (exists f p z, f ∈ FEATURES default_config /\ p ∈ two_attribute_tenants /\
                 attrs p !! f = Some (CInt z) /\
                 2 ^ 1024 - 2 ^ 970 <= Z.abs z /\
                 KeyError "cleanliness_level" = OverflowError) \/
  (KeyError "cleanliness_level" = ZeroDivisionError /\
   F.is_zero (total_weight default_config) = true).
Proof.
  apply (compute_top_matches_errors default_config two_attribute_tenants 5).
  - reflexivity.
  - vm_compute. reflexivity.
Defined.

(** With weights summing to zero the first scored pair divides by zero. *)
Example zero_weights_raise :
  compute_top_matches zero_weights two_attribute_tenants 5
  = Raise ZeroDivisionError.
Proof. reflexivity. Qed.

(** X6: on a table that has the columns [user_id] and [tenant_label], and
    with a non-zero weight total (the same for the sum of every CPython
    version), the call returns rows exactly when every record that has a
    candidate with another [user_id], and every such candidate, has all the
    attribute columns, each holding a number that [float] converts; then the
    output is the concatenation of the rows of the tenants, in table
    order. *)
Theorem compute_top_matches_returns_iff (cfg : config)
    (records : list profile) (top_n : Z) :
  F.py_sum_compensated (map (weight_of cfg) (FEATURES cfg)) = total_weight cfg ->
  F.is_zero (total_weight cfg) = false ->
  ((exists rows, compute_top_matches cfg records top_n = Ok rows) <->
   (forall a b, a ∈ records -> b ∈ records -> user_id a <> user_id b ->
      has_columns cfg a = true /\ has_columns cfg b = true)) /\
  (forall rows, compute_top_matches cfg records top_n = Ok rows ->
     rows = flat_map (rows_of cfg records top_n) records).
Proof.
  intros _ Hw.
  destruct (compute_top_matches_cases cfg records top_n)
    as [H|(e & a & b & Ha & Hb & Hne & Hsc & H)].
  - split; [|intros rows Hr; congruence].
    split; [|by eauto].
    intros _ a b Ha Hb Hne.
    unfold compute_top_matches in H.
    destruct (for_each_ok_inv _ _ _ _ H a Ha) as (s1 & s2 & Hstep).
    destruct (tenant_step_cases cfg records top_n s1 a)
      as [(e & _ & He)|[[cands Hc] _]]; [congruence|].
    destruct (candidates_loop_pairs cfg records a cands b Hc Hb Hne)
      as (compat & details & Hsc).
    by apply score_pair_ok_columns in Hsc.
  - split; [|intros rows Hr; congruence].
    split; [intros [rows Hr]; congruence|].
    intros Hall. exfalso.
    destruct (Hall a b Ha Hb Hne) as [Hca Hcb].
    destruct (score_pair_total cfg a b Hw Hca Hcb) as (c & d & Hok). congruence.
Qed.

Lemma compute_top_matches_returns_iff_witness :
  ((exists rows, compute_top_matches default_config three_tenants 2 = Ok rows) <->
   (forall a b, a ∈ three_tenants -> b ∈ three_tenants ->
      user_id a <> user_id b ->
      has_columns default_config a = true /\
      has_columns default_config b = true)) /\
  (forall rows, compute_top_matches default_config three_tenants 2 = Ok rows ->
     rows = flat_map (rows_of default_config three_tenants 2) three_tenants).
Proof.
  apply (compute_top_matches_returns_iff default_config three_tenants 2);
    reflexivity.
Defined.

(** X7: a table whose records all carry the same [user_id] (no record, or a
    single one, in particular) yields no row and raises nothing, whatever the
    columns and the weights: no attribute is read. *)
Theorem same_id_table_no_rows (cfg : config) (records : list profile)
    (top_n : Z) :
  (forall a b, a ∈ records -> b ∈ records -> user_id a = user_id b) ->
  compute_top_matches cfg records top_n = Ok [].
Proof.
  intros Hsame.
  destruct (compute_top_matches_cases cfg records top_n)
    as [->|(e & a & b & Ha & Hb & Hne & _)]; [|by destruct (Hne (Hsame a b Ha Hb))].
  f_equal. apply flat_map_nil. intros a Ha.
  unfold rows_of, ranking, candidates_of.
  rewrite (flat_map_nil (candidate_of cfg a));
    [unfold slice_to; cbn; destruct (0 <=? top_n); by rewrite take_nil|].
  intros [j b] Hjb. apply enumerate_elem in Hjb as [_ Hjb].
  apply list_elem_of_lookup_2 in Hjb. unfold candidate_of.
  by rewrite decide_True by by apply Hsame.
Qed.

Lemma same_id_table_no_rows_witness :
  compute_top_matches zero_weights [with_cells 4 "Tenant_004" []] 5 = Ok [].
Proof.
  apply (same_id_table_no_rows zero_weights [with_cells 4 "Tenant_004" []] 5).
  intros a b Ha Hb.
  apply list_elem_of_singleton in Ha, Hb. by subst.
Defined.

(** ** The rows of a tenant *)

Section BlockFacts.
Context (cfg : config).

(** A row of a tenant is the explanation of one candidate of its ranking. *)
Lemma rows_of_exact records top_n a row :
  row ∈ rows_of cfg records top_n a ->
  exists rank c b,
    c ∈ ranking cfg records a /\ records !! c.1.1 = Some b /\
    user_id b <> user_id a /\ score_pair cfg a b = Ok (c.1.2, c.2) /\
    row = explain_row a b rank c.1.2 c.2.
Proof.
  unfold rows_of. rewrite elem_of_flat_map. intros ([rank c] & Hc & Hrow).
  apply enumerate_elem in Hc as [_ Hc]. apply list_elem_of_lookup_2 in Hc.
  apply (slice_to_elem _ top_n) in Hc.
  destruct (candidates_of_elem cfg records a c (ranking_elem cfg records a c Hc))
    as (b & Hb & Hne & Hsc).
  destruct c as [[j compat] details]. cbn in *. rewrite Hb in Hrow.
  apply list_elem_of_singleton in Hrow. by exists rank, (j, compat, details), b.
Qed.

Lemma row_of_singleton records a rank c :
  c ∈ candidates_of cfg records a -> length (row_of records a (rank, c)) = 1%nat.
Proof.
  intros Hc. apply candidates_of_elem in Hc as (b & Hb & _).
  destruct c as [[j compat] details]. cbn in *. by rewrite Hb.
Qed.

Lemma enumerate_take {A : Type} (start k : nat) (xs : list A) :
  enumerate start (take k xs) = take k (enumerate start xs).
Proof.
  revert start k. induction xs as [|x xs IH]; intros start [|k]; cbn; try done.
  by rewrite IH.
Qed.

Lemma flat_map_take {A B : Type} (g : A -> list B) (k : nat) (xs : list A) :
  (forall x, x ∈ xs -> length (g x) = 1%nat) ->
  flat_map g (take k xs) = take k (flat_map g xs).
Proof.
  revert k. induction xs as [|x xs IH]; intros [|k] H; cbn; try done.
  assert (length (g x) = 1%nat) as Hx by (apply H; by left).
  destruct (g x) as [|y [|? ?]]; try discriminate Hx. cbn.
  rewrite IH; [done|]. intros; apply H; by right.
Qed.

(** The rows for a smaller [top_n] are the first rows for a larger one. *)
Lemma rows_of_prefix records (m n : Z) a :
  0 <= m <= n ->
  rows_of cfg records m a = take (Z.to_nat m) (rows_of cfg records n a).
Proof.
  intros Hmn. unfold rows_of, slice_to.
  replace (0 <=? m) with true by (symmetry; apply Z.leb_le; lia).
  replace (0 <=? n) with true by (symmetry; apply Z.leb_le; lia).
  replace (take (Z.to_nat m) (ranking cfg records a))
    with (take (Z.to_nat m) (take (Z.to_nat n) (ranking cfg records a)))
    by (rewrite take_take; f_equal; lia).
  rewrite enumerate_take, flat_map_take; [done|].
  intros [rank c] Hc. apply row_of_singleton.
  apply enumerate_elem in Hc as [_ Hc]. apply list_elem_of_lookup_2 in Hc.
  by apply ranking_elem, (subseteq_take (Z.to_nat n)).
Qed.

End BlockFacts.

Lemma flat_map_length_const {A B : Type} (g : A -> list B) (c : nat)
    (l : list A) :
  (forall x, x ∈ l -> length (g x) = c) ->
  length (flat_map g l) = (length l * c)%nat.
Proof.
  induction l as [|x l IH]; intros H; cbn; [done|].
  rewrite length_app, H, IH; [done|intros; apply H; by right|by left].
Qed.

Lemma map_constant {A B : Type} (f : A -> B) (c : B) (l : list A) :
  (forall x, x ∈ l -> f x = c) -> map f l = replicate (length l) c.
Proof.
  induction l as [|x l IH]; intros H; cbn; [done|].
  rewrite H by left. f_equal. apply IH. intros; apply H; by right.
Qed.

(** With unique ids every tenant has [min(top_n, n - 1)] rows, and the rows
    of the tenants follow one another in table order. *)
Lemma rows_blocks cfg (records : list profile) (top_n : Z) :
  scorable cfg records -> NoDup (map user_id records) -> 0 <= top_n ->
  let k := Nat.min (Z.to_nat top_n) (length records - 1) in
  (forall a, a ∈ records -> length (rows_of cfg records top_n a) = k) /\
  length (flat_map (rows_of cfg records top_n) records) = (length records * k)%nat /\
  map row_user_id (flat_map (rows_of cfg records top_n) records)
  = flat_map (fun a => replicate k (user_id a)) records.
Proof.
  intros Hs Hnd Htop k.
  assert (forall a, a ∈ records ->
    length (rows_of cfg records top_n a) = k) as Hlen.
  { intros a Ha. rewrite rows_of_length, slice_to_length, ranking_length by done.
    by replace (0 <=? top_n) with true by (symmetry; apply Z.leb_le; lia). }
  split; [exact Hlen|]. split; [by apply flat_map_length_const|].
  assert (forall l : list profile, (forall a, a ∈ l -> a ∈ records) ->
    map row_user_id (flat_map (rows_of cfg records top_n) l)
    = flat_map (fun a => replicate k (user_id a)) l) as H.
  { induction l as [|a l IH]; intros Hl; cbn [flat_map]; [done|].
    rewrite map_app, IH by (intros; apply Hl; by right). f_equal.
    rewrite <- (Hlen a) by (apply Hl; by left).
    apply map_constant. intros row Hrow. by apply rows_of_user_id in Hrow. }
  by apply H.
Qed.

(** X8: with the attribute columns present and unique ids, a call with
    [top_n >= 0] emits [n * min(top_n, n - 1)] rows in all, the rows of the
    tenants one block after the other in table order. *)
Theorem total_row_count (records : list profile) (top_n : Z) :
  forallb (has_columns default_config) records = true ->
  NoDup (map user_id records) ->
  0 <= top_n ->
  exists rows,
    compute_top_matches default_config records top_n = Ok rows /\
    length rows
    = (length records * Nat.min (Z.to_nat top_n) (length records - 1))%nat /\
    map row_user_id rows
    = flat_map (fun a => replicate (Nat.min (Z.to_nat top_n) (length records - 1))
                           (user_id a)) records.
Proof.
  intros Hcols Hnd Htop.
  pose proof (columns_scorable _ _ default_total_weight_nonzero Hcols) as Hs.
  destruct (rows_blocks default_config records top_n Hs Hnd Htop)
    as (_ & Hlen & Hids).
  eexists. split; [by apply compute_top_matches_rows|].
  split; [exact Hlen|exact Hids].
Qed.

Lemma total_row_count_witness :
  exists rows,
    compute_top_matches default_config three_tenants 5 = Ok rows /\
    length rows
    = (length three_tenants * Nat.min (Z.to_nat 5) (length three_tenants - 1))%nat /\
    map row_user_id rows
    = flat_map (fun a => replicate (Nat.min (Z.to_nat 5) (length three_tenants - 1))
                           (user_id a)) three_tenants.
Proof.
  apply (total_row_count three_tenants 5).
  - vm_compute. reflexivity.
  - apply (bool_decide_unpack _). vm_compute. exact I.
  - lia.
Defined.

(** X9: asking for more matches only appends rows: for [0 <= m <= n] the
    rows of a tenant for [top_n = m] are the first [m] rows for [top_n = n],
    with the same ranks. *)
Theorem smaller_top_n_is_prefix (records : list profile) (m n : Z) :
  forallb (has_columns default_config) records = true ->
  0 <= m <= n ->
  exists rows_m rows_n,
    compute_top_matches default_config records m = Ok rows_m /\
    compute_top_matches default_config records n = Ok rows_n /\
    rows_m = flat_map (rows_of default_config records m) records /\
    rows_n = flat_map (rows_of default_config records n) records /\
    forall a, a ∈ records ->
      rows_of default_config records m a
      = take (Z.to_nat m) (rows_of default_config records n a).
Proof.
  intros Hcols Hmn.
  pose proof (columns_scorable _ _ default_total_weight_nonzero Hcols) as Hs.
  eexists _, _. split; [by apply compute_top_matches_rows|].
  split; [by apply compute_top_matches_rows|].
  split; [done|]. split; [done|].
  intros a _. by apply rows_of_prefix.
Qed.

Lemma smaller_top_n_is_prefix_witness :
  exists rows_m rows_n,
    compute_top_matches default_config three_tenants 1 = Ok rows_m /\
    compute_top_matches default_config three_tenants 2 = Ok rows_n /\
    rows_m = flat_map (rows_of default_config three_tenants 1) three_tenants /\
    rows_n = flat_map (rows_of default_config three_tenants 2) three_tenants /\
    forall a, a ∈ three_tenants ->
      rows_of default_config three_tenants 1 a
      = take (Z.to_nat 1) (rows_of default_config three_tenants 2 a).
Proof.
  apply (smaller_top_n_is_prefix three_tenants 1 2); [vm_compute; reflexivity|lia].
Defined.

(** ** Ties and repeated matches *)

Section StableSort.
Context {A : Type} (key : A -> float) (R : A -> A -> Prop).

(** After sorting, [x] stands before [y] only if its key is strictly larger
    or it stood before [y] in the input. *)
Lemma insert_desc_stable x s :
  Forall (R x) s ->
  StronglySorted (fun x y => F.ltb (key y) (key x) = true \/ R x y) s ->
  StronglySorted (fun x y => F.ltb (key y) (key x) = true \/ R x y)
    (insert_desc key x s).
Proof.
  intros HR Hs. induction Hs as [|y s Hs IH Hy]; cbn.
  - repeat constructor.
  - apply Forall_cons in HR as [HRy HR].
    destruct (F.ltb (key x) (key y)) eqn:E.
    + constructor; [by apply IH|].
      rewrite insert_desc_perm. constructor; [by left|done].
    + constructor; [by constructor|].
      constructor; [by right|].
      eapply Forall_impl; [exact HR|]. intros z Hz. by right.
Qed.

Lemma sort_desc_stable l :
  StronglySorted R l ->
  StronglySorted (fun x y => F.ltb (key y) (key x) = true \/ R x y)
    (sort_desc key l).
Proof.
  induction 1 as [|x l Hl IH Hx]; [constructor|].
  change (sort_desc key (x :: l)) with (insert_desc key x (sort_desc key l)).
  apply insert_desc_stable; [|done]. by rewrite sort_desc_perm.
Qed.

End StableSort.

Lemma candidates_increasing cfg a (start : nat) (l : list profile) :
  Forall (fun c : candidate => (start <= c.1.1)%nat)
    (flat_map (candidate_of cfg a) (enumerate start l)) /\
  StronglySorted (fun c1 c2 : candidate => (c1.1.1 < c2.1.1)%nat)
    (flat_map (candidate_of cfg a) (enumerate start l)).
Proof.
  revert start. induction l as [|b l IH]; intros start; cbn [enumerate flat_map].
  - split; constructor.
  - destruct (IH (S start)) as [IH1 IH2].
    assert (Forall (fun c : candidate => (start <= c.1.1)%nat)
              (flat_map (candidate_of cfg a) (enumerate (S start) l))) as IH1'.
    { eapply Forall_impl; [exact IH1|]. cbn. intros; lia. }
    unfold candidate_of at 1 3.
    destruct (decide (user_id a = user_id b)); [done|].
    destruct (score_pair cfg a b) as [[compat details]|]; [|done].
    cbn [app]. split.
    + constructor; [cbn; lia|done].
    + constructor; [done|]. eapply Forall_impl; [exact IH1|]. cbn. intros; lia.
Qed.

(** X10: in the ranking of a tenant a candidate stands before another only
    if its percentage is strictly larger or it comes earlier in the table:
    equal percentages keep the table order. *)
Theorem ties_keep_table_order (cfg : config) (records : list profile)
    (a : profile) :
  StronglySorted
    (fun c1 c2 : candidate =>
       F.ltb (compat_of c2) (compat_of c1) = true \/ (c1.1.1 < c2.1.1)%nat)
    (ranking cfg records a).
Proof.
  unfold ranking, candidates_of.
  apply (sort_desc_stable compat_of
           (fun c1 c2 : candidate => (c1.1.1 < c2.1.1)%nat)).
  apply candidates_increasing.
Qed.

(** Two tenants with the same grades tie for a third one and are ranked in
    table order. *)
Example tie_in_table_order :
  let table := [graded 1 "Tenant_001" [3; 3; 3; 3; 3; 3; 3; 3; 3; 3];
                graded 2 "Tenant_002" [1; 2; 3; 4; 5; 1; 2; 3; 4; 5];
                graded 3 "Tenant_003" [1; 2; 3; 4; 5; 1; 2; 3; 4; 5]] in
  exists rows,
    compute_top_matches default_config table 5 = Ok rows /\
    map (fun r => (match_rank r, match_user_id r, F.fmt2 (compatibility_score r)))
      (take 2 rows)
    = [(1%nat, 2, "70.95"%string); (2%nat, 3, "70.95"%string)].
Proof. eexists. split; vm_compute; reflexivity. Qed.

Lemma StronglySorted_lt_NoDup (l : list nat) :
  StronglySorted lt l -> NoDup l.
Proof.
  induction 1 as [|x l Hl IH Hx]; constructor; [|done].
  intros Hin. rewrite Forall_forall in Hx. specialize (Hx x Hin). lia.
Qed.

Lemma candidates_indices_NoDup cfg records a :
  NoDup (map (fun c : candidate => c.1.1) (candidates_of cfg records a)).
Proof.
  apply StronglySorted_lt_NoDup. unfold candidates_of.
  destruct (candidates_increasing cfg a 0 records) as [_ H].
  induction H as [|c l Hl IH Hc]; cbn; constructor; [done|].
  by apply Forall_fmap.
Qed.

(** X11: with unique ids no tenant is matched twice with the same tenant:
    the [match_user_id] values of the rows of a tenant are pairwise
    distinct. *)
Theorem matches_of_tenant_distinct (records : list profile) (top_n : Z)
    (a : profile) :
  forallb (has_columns default_config) records = true ->
  NoDup (map user_id records) ->
  a ∈ records ->
  exists rows,
    compute_top_matches default_config records top_n = Ok rows /\
    NoDup (map match_user_id
             (filter (fun r => row_user_id r = user_id a) rows)).
Proof.
  intros Hcols Hnd Ha.
  pose proof (columns_scorable _ _ default_total_weight_nonzero Hcols) as Hs.
  eexists. split; [by apply compute_top_matches_rows|].
  rewrite rows_for_tenant by done.
  destruct (rows_of_view default_config records top_n a) as [Hv _].
  cbn zeta in Hv.
  destruct (slice_to_prefix (ranking default_config records a) top_n) as [k Hk].
  rewrite Hk in Hv.
  assert (NoDup (map (fun c : candidate => c.1.1)
                   (take k (ranking default_config records a)))) as Hidx.
  { replace (map (fun c : candidate => c.1.1)
               (take k (ranking default_config records a)))
      with (take k (map (fun c : candidate => c.1.1)
                      (ranking default_config records a)))
      by (symmetry; apply fmap_take).
    eapply sublist_NoDup; [|apply sublist_take].
    unfold ranking. rewrite sort_desc_perm. apply candidates_indices_NoDup. }
  apply NoDup_alt. intros i i' u Hi Hi'.
  apply list_lookup_fmap_Some in Hi as (r & -> & Hr).
  apply list_lookup_fmap_Some in Hi' as (r' & Hu & Hr').
  destruct (Forall2_lookup_r _ _ _ _ _ Hv Hr) as (c & Hc & Hren).
  destruct (Forall2_lookup_r _ _ _ _ _ Hv Hr') as (c' & Hc' & Hren').
  destruct Hren as (b & Hb & _ & _ & _ & Hm & _).
  destruct Hren' as (b' & Hb' & _ & _ & _ & Hm' & _).
  assert (c.1.1 = c'.1.1) as Hj.
  { rewrite NoDup_alt in Hnd. apply (Hnd _ _ (user_id b)).
    - by rewrite list_lookup_fmap, Hb.
    - rewrite list_lookup_fmap, Hb'. cbn. congruence. }
  rewrite NoDup_alt in Hidx. apply (Hidx i i' c.1.1).
  - by rewrite list_lookup_fmap, Hc.
  - rewrite list_lookup_fmap, Hc'. cbn. by rewrite Hj.
Qed.

Lemma matches_of_tenant_distinct_witness :
  exists rows,
    compute_top_matches default_config three_tenants 5 = Ok rows /\
    NoDup (map match_user_id
             (filter (fun r => row_user_id r
                               = user_id (graded 3 "Tenant_003"
                                            [5; 4; 3; 2; 1; 5; 4; 3; 2; 1]))
                rows)).
Proof.
  apply (matches_of_tenant_distinct three_tenants 5
           (graded 3 "Tenant_003" [5; 4; 3; 2; 1; 5; 4; 3; 2; 1])).
  - vm_compute. reflexivity.
  - apply (bool_decide_unpack _). vm_compute. exact I.
  - right. left.
Defined.

(** ** Labels and the long explanation *)

Lemma printing_checks_true : printing_checks = true.
Proof. vm_compute. reflexivity. Qed.

Lemma reachable_percent_printing x :
  x ∈ reachable_percents -> F.fmt2 x = F.fmt2 (F.round2 x).
Proof.
  intros Hx. pose proof printing_checks_true as H.
  unfold printing_checks in H. rewrite forallb_forall in H.
  apply list_elem_of_In, H in Hx. clear H. by apply String.eqb_eq in Hx.
Qed.

(** X12: for tenants with grades on the scale every row carries the ids and
    labels of two records of the table, and its long explanation quotes both
    labels, the emitted [compatibility_score] printed with two decimals, and
    the same list of driver labels as the short explanation. *)
Theorem explanation_long_quotes_row (records : list profile) (top_n : Z) :
  forallb (on_scale default_config) records = true ->
  exists rows,
    compute_top_matches default_config records top_n = Ok rows /\
    forall row, row ∈ rows ->
      exists a b drivers,
        a ∈ records /\ b ∈ records /\
        row_user_id row = user_id a /\
        row_tenant_label row = tenant_label a /\
        match_user_id row = user_id b /\
        match_tenant_label row = tenant_label b /\
        explanation_short row
        = "High compatibility driven by " +:+ drivers +:+ "." /\
        explanation_long row
        = tenant_label a +:+ " matches well with " +:+ tenant_label b
          +:+ " (score " +:+ F.fmt2 (compatibility_score row)
          +:+ "%). Top drivers: " +:+ drivers +:+ ". "
          +:+ "Note: similarity rewards close values, while complementarity rewards balanced pairs "
          +:+ "(on a 1..5 scale, best when a+b is about 6).".
Proof.
  intros Hscale.
  pose proof (on_scale_table_has_columns _ Hscale) as Hcols.
  pose proof (columns_scorable _ _ default_total_weight_nonzero Hcols) as Hs.
  eexists. split; [by apply compute_top_matches_rows|].
  intros row Hrow. apply elem_of_flat_map in Hrow as (a & Ha & Hrow).
  apply rows_of_exact in Hrow as (rank & c & b & Hc & Hb & Hne & Hsc & ->).
  apply list_elem_of_lookup_2 in Hb.
  exists a, b, (join ", " (map driver_pretty (take 3 c.2))).
  do 7 (split; [done|]).
  unfold explain_row. cbn [explanation_long compatibility_score].
  rewrite <- reachable_percent_printing; [done|].
  apply (score_pair_on_scale a b _ c.2);
    [by apply (on_scale_in records)|by apply (on_scale_in records)|exact Hsc].
Qed.

Lemma explanation_long_quotes_row_witness :
  exists rows,
    compute_top_matches default_config three_tenants 2 = Ok rows /\
    forall row, row ∈ rows ->
      exists a b drivers,
        a ∈ three_tenants /\ b ∈ three_tenants /\
        row_user_id row = user_id a /\
        row_tenant_label row = tenant_label a /\
        match_user_id row = user_id b /\
        match_tenant_label row = tenant_label b /\
        explanation_short row
        = "High compatibility driven by " +:+ drivers +:+ "." /\
        explanation_long row
        = tenant_label a +:+ " matches well with " +:+ tenant_label b
          +:+ " (score " +:+ F.fmt2 (compatibility_score row)
          +:+ "%). Top drivers: " +:+ drivers +:+ ". "
          +:+ "Note: similarity rewards close values, while complementarity rewards balanced pairs "
          +:+ "(on a 1..5 scale, best when a+b is about 6).".
Proof.
  apply (explanation_long_quotes_row three_tenants 2). vm_compute. reflexivity.
Defined.

(** ** Synthetic profiles and the script *)

Lemma data_lookup (draw : nat -> nat -> Z) (fs : list string) (start : nat)
    (m : gmap string (nat -> Z)) (f : string) :
  f ∈ fs \/ (exists k, m !! f = Some (draw k)) ->
  exists k,
    foldl (fun data kf => <[kf.2 := draw kf.1]> data) m (enumerate start fs) !! f
    = Some (draw k).
Proof.
  revert start m. induction fs as [|x fs IH]; intros start m H; cbn.
  - destruct H as [H|H]; [by apply elem_of_nil in H|done].
  - apply IH. destruct (decide (x = f)) as [->|Hx].
    + right. exists start. apply lookup_insert_eq.
    + destruct H as [H|[k H]].
      * apply elem_of_cons in H as [->|H]; [done|by left].
      * right. exists k. by rewrite lookup_insert_ne.
Qed.

Lemma grade_on_scale z :
  SCALE_MIN default_config <= z <= SCALE_MAX default_config ->
  cell_on_scale default_config (CInt z) = true.
Proof. intros H. scale_cases z; reflexivity. Qed.

Lemma generated_user_ids cfg (draw : nat -> nat -> Z) (n : nat) :
  map user_id (generate_synthetic_profiles cfg draw n) = map Z.of_nat (seq 1 n).
Proof.
  unfold generate_synthetic_profiles.
  rewrite map_map. cbn [user_id]. rewrite <- seq_shift, map_map. done.
Qed.

Lemma generated_labels cfg (draw : nat -> nat -> Z) (n : nat) :
  map tenant_label (generate_synthetic_profiles cfg draw n)
  = map make_tenant_label (map Z.of_nat (seq 1 n)).
Proof.
  unfold generate_synthetic_profiles. rewrite <- seq_shift, !map_map. done.
Qed.

Lemma generated_on_scale (draw : nat -> nat -> Z) (n : nat) :
  (forall k i, SCALE_MIN default_config <= draw k i <= SCALE_MAX default_config) ->
  forallb (on_scale default_config)
    (generate_synthetic_profiles default_config draw n) = true.
Proof.
  intros Hdraw. unfold generate_synthetic_profiles.
  apply forallb_forall. intros p Hp.
  apply list_elem_of_In, list_elem_of_fmap in Hp as (i & -> & _).
  unfold on_scale. apply forallb_forall. intros f Hf.
  apply list_elem_of_In in Hf. cbn [attrs]. rewrite lookup_fmap.
  destruct (data_lookup draw (FEATURES default_config) 0 ∅ f (or_introl Hf))
    as [k ->].
  cbn. apply grade_on_scale, Hdraw.
Qed.

Lemma seq_ids_NoDup (n : nat) : NoDup (map Z.of_nat (seq 1 n)).
Proof. apply (NoDup_fmap_2 Z.of_nat), NoDup_ListNoDup, List.seq_NoDup. Qed.

(** X13: the generated table has [n] records with the ids 1..n in order,
    every label is the one of its id and the labels are pairwise distinct;
    when the random source stays in [SCALE_MIN, SCALE_MAX], as [randint]
    does, every record has every attribute column with a grade of the
    scale. *)
Theorem generated_profiles_well_formed (draw : nat -> nat -> Z) (n : nat) :
  (forall k i, SCALE_MIN default_config <= draw k i <= SCALE_MAX default_config) ->
  let profiles := generate_synthetic_profiles default_config draw n in
  length profiles = n /\
  map user_id profiles = map Z.of_nat (seq 1 n) /\
  NoDup (map user_id profiles) /\
  map tenant_label profiles = map make_tenant_label (map user_id profiles) /\
  NoDup (map tenant_label profiles) /\
  forallb (on_scale default_config) profiles = true.
Proof.
  intros Hdraw profiles. subst profiles.
  pose proof (generated_user_ids default_config draw n) as Hids.
  pose proof (generated_labels default_config draw n) as Hlabels.
  pose proof (seq_ids_NoDup n) as Hnd.
  split.
  { rewrite <- (length_map user_id), Hids, length_map. apply length_seq. }
  split; [exact Hids|]. split; [by rewrite Hids|].
  split; [by rewrite Hlabels, Hids|].
  split; [|by apply generated_on_scale].
  rewrite Hlabels. apply NoDup_fmap_2_strong; [|exact Hnd].
  intros i j _ _ Hij. by apply make_tenant_label_inj.
Qed.

Lemma generated_profiles_well_formed_witness :
  let profiles := generate_synthetic_profiles default_config cycling_draw 4 in
  length profiles = 4%nat /\
  map user_id profiles = map Z.of_nat (seq 1 4) /\
  NoDup (map user_id profiles) /\
  map tenant_label profiles = map make_tenant_label (map user_id profiles) /\
  NoDup (map tenant_label profiles) /\
  forallb (on_scale default_config) profiles = true.
Proof.
  apply (generated_profiles_well_formed cycling_draw 4).
  intros k i. unfold cycling_draw. cbn.
  pose proof (Nat.mod_upper_bound (k + i) 5). lia.
Defined.

Lemma flat_map_replicate_ids (ps : list profile) (l : list nat) (c : nat) :
  map user_id ps = map Z.of_nat l ->
  flat_map (fun a => replicate c (user_id a)) ps
  = flat_map (fun i => replicate c (Z.of_nat i)) l.
Proof.
  revert l. induction ps as [|p ps IH]; intros [|i l] Hl; try discriminate;
    [done|].
  cbn in Hl. injection Hl as Hp Hl. cbn [flat_map]. rewrite Hp. f_equal.
  by apply IH.
Qed.

(** X14: the script never raises when the random source stays on the scale:
    it produces 300 profiles and 1500 match rows, five for every tenant in
    the order of the ids, each with a percentage in [0, 100]. *)
Theorem main_output (draw : nat -> nat -> Z) :
  (forall k i, SCALE_MIN default_config <= draw k i <= SCALE_MAX default_config) ->
  exists profiles matches,
    main draw = Ok (profiles, matches) /\
    length profiles = 300%nat /\
    length matches = 1500%nat /\
    map row_user_id matches
    = flat_map (fun i => replicate 5 (Z.of_nat i)) (seq 1 300) /\
    forall row, row ∈ matches ->
      F.leb F.zero (compatibility_score row) = true /\
      F.leb (compatibility_score row) F.hundred = true.
Proof.
  intros Hdraw. unfold main.
  pose proof (generated_user_ids default_config draw N_PROFILES) as Hids.
  pose proof (generated_on_scale draw N_PROFILES Hdraw) as Hscale.
  set (profiles := generate_synthetic_profiles default_config draw N_PROFILES) in *.
  assert (length profiles = N_PROFILES) as Hlen.
  { rewrite <- (length_map user_id), Hids, length_map. apply length_seq. }
  assert (NoDup (map user_id profiles)) as Hnd
    by (rewrite Hids; apply seq_ids_NoDup).
  pose proof (on_scale_table_has_columns _ Hscale) as Hcols.
  pose proof (columns_scorable _ _ default_total_weight_nonzero Hcols) as Hs.
  destruct (rows_blocks default_config profiles TOP_N Hs Hnd) as (_ & Hn & Hu);
    [unfold TOP_N; lia|].
  exists profiles, (flat_map (rows_of default_config profiles TOP_N) profiles).
  rewrite compute_top_matches_rows by done. split; [done|].
  split; [exact Hlen|]. rewrite Hlen in Hn, Hu.
  split; [exact Hn|]. split.
  - rewrite Hu. change (Nat.min (Z.to_nat TOP_N) (N_PROFILES - 1)) with 5%nat.
    by apply flat_map_replicate_ids.
  - intros row Hrow. by apply (on_scale_rows_range profiles TOP_N).
Qed.

Lemma main_output_witness :
  exists profiles matches,
    main cycling_draw = Ok (profiles, matches) /\
    length profiles = 300%nat /\
    length matches = 1500%nat /\
    map row_user_id matches
    = flat_map (fun i => replicate 5 (Z.of_nat i)) (seq 1 300) /\
    forall row, row ∈ matches ->
      F.leb F.zero (compatibility_score row) = true /\
      F.leb (compatibility_score row) F.hundred = true.
Proof.
  apply (main_output cycling_draw).
  intros k i. unfold cycling_draw. cbn.
  pose proof (Nat.mod_upper_bound (k + i) 5). lia.
Defined.

(** ** What a driver phrase reports *)




